(** * mindcrank: a Monte Carlo sampler for drawing into a card combo

    A shallow embedding of [main.go] and the properties of its
    simulation engine: seed derivation, configuration validation, deck
    construction, the per-trial draw loop and the worker pool that
    aggregates trial results.

    Conventions.  Go's [int], [int64] and [uint64] are modelled as [Z]
    with the two's-complement wrap-around written at every arithmetic
    operation ([int] is taken to be 64 bits wide, as on every platform
    where [uint64(simIndex)] is a plain reinterpretation).  Slices are
    lists; an index or slice expression that Go would reject at run time
    with a panic makes the embedded function return [None]. *)

From Stdlib Require Import ZArith Lia.
From Stdlib Require Import Floats.SpecFloat.
From stdpp Require Import base option list strings.

Local Open Scope Z_scope.

(** ** Machine integers *)

Module GoInt.

Definition min_int : Z := - 2 ^ 63.
Definition max_int : Z := 2 ^ 63 - 1.

(** Conversion to [uint64]: the residue modulo [2^64]. *)
Definition to_uint64 (z : Z) : Z := z mod 2 ^ 64.

(** Conversion to [int64] (and to [int]): the signed representative. *)
Definition to_int64 (z : Z) : Z := (z + 2 ^ 63) mod 2 ^ 64 - 2 ^ 63.

Definition in_int (z : Z) : Prop := min_int <= z <= max_int.

(** Signed addition and subtraction as the hardware performs them. *)
Definition add (a b : Z) : Z := to_int64 (a + b).
Definition sub (a b : Z) : Z := to_int64 (a - b).

End GoInt.

(** ** Data model *)

(** [type Card struct { keyword string; combo bool }] *)
Record Card := mkCard {
  keyword : string;  (* denotes land or non-land *)
  combo   : bool     (* denotes a combo piece *)
}.

(** [type Config struct] *)
Record Config := mkConfig {
  deckSize : Z;
  lands    : Z;
  combos   : Z;
  required : Z;
  runs     : Z;
  seed     : Z
}.

(** [type Simulation struct] *)
Record Simulation := mkSimulation {
  drawsToWinCon    : Z;
  openingHandWin   : bool;
  openingHandLands : Z
}.

(** [type Results struct]; the [float64] fields are IEEE-754 binary64
    values, represented by the Standard Library's [spec_float]. *)
Record Results := mkResults {
  attempts               : Z;
  averageDrawsToWin      : spec_float;
  openingHandWins        : Z;
  averageOpeningHandWins : spec_float;
  averageOpeningLands    : spec_float
}.

(** A [Config] whose fields are values of their Go types. *)
Definition wf_Config (cfg : Config) : Prop :=
  GoInt.in_int (deckSize cfg) /\ GoInt.in_int (lands cfg) /\
  GoInt.in_int (combos cfg) /\ GoInt.in_int (required cfg) /\
  GoInt.in_int (runs cfg) /\ GoInt.in_int (seed cfg).

(** ** [simSeed] *)

Definition simSeed (baseSeed simIndex : Z) : Z :=
  let x := GoInt.to_uint64
             (GoInt.to_uint64 (GoInt.to_uint64 baseSeed + GoInt.to_uint64 simIndex)
              + 0x9e3779b97f4a7c15) in
  let x := GoInt.to_uint64 (Z.lxor x (Z.shiftr x 30) * 0xbf58476d1ce4e5b9) in
  let x := GoInt.to_uint64 (Z.lxor x (Z.shiftr x 27) * 0x94d049bb133111eb) in
  let x := Z.lxor x (Z.shiftr x 31) in
  GoInt.to_int64 x.

(** The mixing function as the specification words it: an addition of a
    large odd constant to [base_seed + trial_index], then xor-shift and
    multiply-by-odd-constant steps, all modulo [2^64]. *)
Module SplitMix.

Definition golden : Z := 0x9e3779b97f4a7c15.
Definition mult1  : Z := 0xbf58476d1ce4e5b9.
Definition mult2  : Z := 0x94d049bb133111eb.

Definition xor_shift (k x : Z) : Z := Z.lxor x (x / 2 ^ k).
Definition mul_odd (c x : Z) : Z := (x * c) mod 2 ^ 64.

Definition mix (base_seed trial_index : Z) : Z :=
  let x := (base_seed + trial_index + golden) mod 2 ^ 64 in
  xor_shift 31 (mul_odd mult2 (xor_shift 27 (mul_odd mult1 (xor_shift 30 x)))).

End SplitMix.

(** ** [validateConfig] *)

(** The [error] values the function builds, one constructor per
    [errors.New] / [fmt.Errorf] call, carrying the formatted operands. *)
Inductive error :=
  | ErrDeckTooSmall
  | ErrNegativeLands
  | ErrNegativeCombos
  | ErrRequiredBelowOne
  | ErrRequiredExceedsCombos (required combos : Z)
  | ErrLandsPlusCombos (lands combos deckSize : Z)
  | ErrRuns.

(** [None] is Go's [nil] error. *)
Definition validateConfig (cfg : Config) : option error :=
  if deckSize cfg <? 7 then Some ErrDeckTooSmall
  else if lands cfg <? 0 then Some ErrNegativeLands
  else if combos cfg <? 0 then Some ErrNegativeCombos
  else if required cfg <? 1 then Some ErrRequiredBelowOne
  else if required cfg >? combos cfg
       then Some (ErrRequiredExceedsCombos (required cfg) (combos cfg))
  else if GoInt.add (lands cfg) (combos cfg) >? deckSize cfg
       then Some (ErrLandsPlusCombos (lands cfg) (combos cfg) (deckSize cfg))
  else if runs cfg <? 1 then Some ErrRuns
  else None.

(** The six failure conditions of the error taxonomy, over the integers. *)
Definition invalid (cfg : Config) : Prop :=
  deckSize cfg < 7 \/ lands cfg < 0 \/ combos cfg < 0 \/
  required cfg < 1 \/ required cfg > combos cfg \/
  lands cfg + combos cfg > deckSize cfg \/ runs cfg < 1.

(** A valid configuration: one of Go values that meets none of them. *)
Definition valid (cfg : Config) : Prop := wf_Config cfg /\ ~ invalid cfg.

(** ** Go's [math/rand], as far as the program uses it

    [rand.New(rand.NewSource(seed))] builds a generator that is a function
    of the seed alone, and [rng.Shuffle(n, swap)] does nothing to the
    caller's data but call [swap(i, j)] a number of times, each time with
    [0 <= i < n] and [0 <= j < n].  The package is not part of the
    repository; it enters as an interface with that contract. *)
Class RandSource (Rand : Type) := {
  NewRand : Z -> Rand;
  ShuffleCalls : Rand -> nat -> list (nat * nat);
  ShuffleCalls_range :
    forall (r : Rand) (n i j : nat),
      (i, j) ∈ ShuffleCalls r n -> (i < n)%nat /\ (j < n)%nat
}.

(** A concrete generator: the Fisher-Yates loop of [math/rand] driven by
    a linear congruential sequence. *)
Module FisherYates.

Definition next (s : Z) : Z := (s * 6364136223846793005 + 1442695040888963407) mod 2 ^ 64.

Fixpoint calls (i : nat) (s : Z) : list (nat * nat) :=
  match i with
  | O => []
  | S i' => (i, Z.to_nat (next s mod Z.of_nat (S i))) :: calls i' (next s)
  end.

Definition shuffle_calls (s : Z) (n : nat) : list (nat * nat) := calls (pred n) s.

End FisherYates.

(** ** [shuffleDeck] and [createDeck] *)

(** The closure handed to [rng.Shuffle]:
    [deck[i], deck[j] = deck[j], deck[i]].  Both operands are read first
    (an index out of range panics), then [deck[i]] and [deck[j]] are
    assigned in that order. *)
Definition swap (deck : list Card) (i j : nat) : option (list Card) :=
  ci ← deck !! i;
  cj ← deck !! j;
  Some (<[j := ci]> (<[i := cj]> deck)).

Fixpoint apply_swaps (calls : list (nat * nat)) (deck : list Card)
  : option (list Card) :=
  match calls with
  | [] => Some deck
  | (i, j) :: rest => deck' ← swap deck i j; apply_swaps rest deck'
  end.

Definition shuffleDeck {Rand : Type} {RS : RandSource Rand} (deck : list Card) (rng : Rand)
  : option (list Card) :=
  apply_swaps (ShuffleCalls rng (length deck)) deck.

(** [for i := 0; i < n; i++ { deck = append(deck, c) }], run for the
    [Z.to_nat n] iterations the loop makes. *)
Fixpoint appendN (n : nat) (c : Card) (deck : list Card) : list Card :=
  match n with
  | O => deck
  | S n' => appendN n' c (deck ++ [c])
  end.

Definition landCard     : Card := mkCard "land" false.
Definition nonLandCard  : Card := mkCard "non-land" false.
Definition comboCard    : Card := mkCard "non-land" true.

Definition createDeck {Rand : Type} {RS : RandSource Rand} (cfg : Config) (rng : Rand)
  : option (list Card) :=
  let numLands := lands cfg in
  let numNonLands := GoInt.sub (deckSize cfg) numLands in
  let numComboPieces := combos cfg in
  let deck := [] in
  let deck := appendN (Z.to_nat numLands) landCard deck in
  let deck := appendN (Z.to_nat (GoInt.sub numNonLands numComboPieces)) nonLandCard deck in
  let deck := appendN (Z.to_nat numComboPieces) comboCard deck in
  shuffleDeck deck rng.

(** ** [checkComboWin] *)

Fixpoint checkComboWin_from (count : Z) (hand : list Card) (required : Z) : bool :=
  match hand with
  | [] => false
  | c :: rest =>
      if combo c then
        let count := GoInt.add count 1 in
        if count =? required then true
        else checkComboWin_from count rest required
      else checkComboWin_from count rest required
  end.

Definition checkComboWin (hand : list Card) (required : Z) : bool :=
  checkComboWin_from 0 hand required.

(** ** [runSimulation]

    [hand, deck := deck[:7], deck[7:]] makes two slices of one backing
    array: [hand] is its first [handLen] cells and the library starts at
    cell [libOff] and has [libLen] cells.  [mem] is that array, up to the
    length of the deck passed in. *)

Fixpoint countLands (openingLands : Z) (hand : list Card) : Z :=
  match hand with
  | [] => openingLands
  | c :: rest =>
      countLands (if String.eqb (keyword c) "land"
                  then GoInt.add openingLands 1 else openingLands) rest
  end.

(** [hand = append(hand, drawn)].  The capacity of [hand] reaches to the
    end of the array, so while [handLen] is below the array's length the
    card is stored in place, in the cell after the hand, which is a cell
    of the library.  Growing past the array is not modelled ([None]). *)
Definition append_hand (mem : list Card) (handLen : nat) (drawn : Card)
  : option (list Card * nat) :=
  if decide (handLen < length mem)%nat
  then Some (<[handLen := drawn]> mem, S handLen)
  else None.

Fixpoint drawLoop (required openingLands : Z) (libLen libOff : nat)
    (mem : list Card) (handLen : nat) (drawCount : Z) : option Simulation :=
  match libLen with
  | O => Some (mkSimulation drawCount false openingLands)
  | S libLen' =>
      let drawCount := GoInt.add drawCount 1 in
      drawn ← mem !! libOff;
      '(mem, handLen) ← append_hand mem handLen drawn;
      if checkComboWin (take handLen mem) required
      then Some (mkSimulation drawCount false openingLands)
      else drawLoop required openingLands libLen' (S libOff) mem handLen drawCount
  end.

Definition runSimulation (deck : list Card) (required : Z) : option Simulation :=
  let drawCount := 0 in
  if decide (7 <= length deck)%nat then
    let mem := deck in
    let hand := take 7 mem in
    let openingLands := countLands 0 hand in
    if checkComboWin hand required
    then Some (mkSimulation drawCount true openingLands)
    else drawLoop required openingLands (length deck - 7) 7 mem 7 drawCount
  else None.

(** ** [runScenario]

    One trial, as a worker runs it for the index it takes from the job
    channel. *)
Definition runTrial {Rand : Type} {RS : RandSource Rand}
    (cfg : Config) (simIndex : Z) : option Simulation :=
  let rng := NewRand (simSeed (seed cfg) simIndex) in
  deck ← createDeck cfg rng;
  runSimulation deck (required cfg).

(** [float64] arithmetic: IEEE-754 binary64, round to nearest even. *)
Module Float64.

Definition prec : Z := 53.
Definition emax : Z := 1024.

Definition zero : spec_float := S754_zero false.

(** [float64(z)] for an integer [z]. *)
Definition of_int64 (z : Z) : spec_float := binary_normalize prec emax z 0 false.

Definition div (x y : spec_float) : spec_float := SFdiv prec emax x y.

End Float64.

(** The variables of the consuming loop: [results], of which the loop
    updates [attempts], and the three running sums. *)
Record Aggregate := mkAggregate {
  results         : Results;
  drawSum         : Z;
  landSum         : Z;
  openingWinCount : Z
}.

Definition emptyAggregate : Aggregate :=
  mkAggregate (mkResults 0 Float64.zero 0 Float64.zero Float64.zero) 0 0 0.

(** The body of [for sim := range output]. *)
Definition aggregate (agg : Aggregate) (sim : Simulation) : Aggregate :=
  let r := results agg in
  let r := mkResults (GoInt.add (attempts r) 1) (averageDrawsToWin r)
                     (openingHandWins r) (averageOpeningHandWins r)
                     (averageOpeningLands r) in
  let openingWinCount :=
    if openingHandWin sim then GoInt.add (openingWinCount agg) 1
    else openingWinCount agg in
  let drawSum := GoInt.add (drawSum agg) (drawsToWinCon sim) in
  let landSum := GoInt.add (landSum agg) (GoInt.to_int64 (openingHandLands sim)) in
  mkAggregate r drawSum landSum openingWinCount.

(** The statements after the loop: the means, when a trial was counted. *)
Definition finish (agg : Aggregate) : Results :=
  let r := results agg in
  if attempts r >? 0 then
    mkResults
      (attempts r)
      (Float64.div (Float64.of_int64 (drawSum agg)) (Float64.of_int64 (attempts r)))
      (openingWinCount agg)
      (Float64.div (Float64.of_int64 (openingWinCount agg))
                   (Float64.of_int64 (attempts r)))
      (Float64.div (Float64.of_int64 (landSum agg)) (Float64.of_int64 (attempts r)))
  else r.

(** The goroutines of [runScenario] and the two channels between them.
    The producer is at index [nextJob] of its loop; [jobs] and [output]
    are the buffered channels, oldest element first; each worker either
    waits for a job ([None]) or holds the result it is about to send;
    [agg] belongs to the consuming loop. *)
Record Pool := mkPool {
  nextJob : Z;
  jobs    : list Z;
  workers : list (option Simulation);
  output  : list Simulation;
  agg     : Aggregate
}.

(** [output := make(chan Simulation, 10_000)] *)
Definition outputCap : Z := 10000.

(** What the Go scheduler may let happen next: the producer sends an
    index, worker [w] receives a job and runs the trial, worker [w]
    sends its result, or the consuming loop receives a result. *)
Inductive action :=
  | Produce
  | Receive (w : nat)
  | Send (w : nat)
  | Consume.

(** One step of the pool; [None] when the action is not enabled (the
    channel is full or empty, the worker is busy) or the trial panics. *)
Definition step {Rand : Type} {RS : RandSource Rand}
    (cfg : Config) (a : action) (s : Pool) : option Pool :=
  match a with
  | Produce =>
      if decide (nextJob s < runs cfg /\ (length (jobs s) < length (workers s))%nat)
      then Some (mkPool (GoInt.add (nextJob s) 1) (jobs s ++ [nextJob s])
                        (workers s) (output s) (agg s))
      else None
  | Receive w =>
      match workers s !! w, jobs s with
      | Some None, simIndex :: rest =>
          sim ← runTrial cfg simIndex;
          Some (mkPool (nextJob s) rest (<[w := Some sim]> (workers s))
                       (output s) (agg s))
      | _, _ => None
      end
  | Send w =>
      match workers s !! w with
      | Some (Some sim) =>
          if decide (Z.of_nat (length (output s)) < outputCap)
          then Some (mkPool (nextJob s) (jobs s) (<[w := None]> (workers s))
                            (output s ++ [sim]) (agg s))
          else None
      | _ => None
      end
  | Consume =>
      match output s with
      | sim :: rest =>
          Some (mkPool (nextJob s) (jobs s) (workers s) rest (aggregate (agg s) sim))
      | [] => None
      end
  end.

(** A schedule: the actions in the order the scheduler picks them. *)
Fixpoint exec {Rand : Type} {RS : RandSource Rand}
    (cfg : Config) (sched : list action) (s : Pool) : option Pool :=
  match sched with
  | [] => Some s
  | a :: rest => s' ← step cfg a s; exec cfg rest s'
  end.

Definition idle (o : option Simulation) : bool :=
  match o with None => true | Some _ => false end.

(** The producer has left its loop and closed [jobs], every worker has
    left its loop, and [output] is closed and drained. *)
Definition finished (cfg : Config) (s : Pool) : bool :=
  bool_decide (~ nextJob s < runs cfg) &&
  match jobs s with [] => true | _ => false end &&
  forallb idle (workers s) &&
  match output s with [] => true | _ => false end.

Definition initPool (workerCount : nat) : Pool :=
  mkPool 0 [] (replicate workerCount None) [] emptyAggregate.

(** [runScenario] for a number of workers ([runtime.NumCPU()]) and a
    schedule: the variables of the consuming loop when it ends, and the
    results returned, when the schedule is a complete run. *)
Definition runPool {Rand : Type} {RS : RandSource Rand}
    (cfg : Config) (workerCount : nat) (sched : list action) : option Aggregate :=
  s ← exec cfg sched (initPool workerCount);
  if finished cfg s then Some (agg s) else None.

Definition runScenario {Rand : Type} {RS : RandSource Rand}
    (cfg : Config) (workerCount : nat) (sched : list action) : option Results :=
  finish <$> runPool cfg workerCount sched.

(** The schedule that handles one trial after the other on worker 0. *)
Definition oneByOne (trials : nat) : list action :=
  mjoin (replicate trials [Produce; Receive 0; Send 0; Consume]).

(** The results of the trials of a run, in the order of their indices. *)
Definition trialResults {Rand : Type} {RS : RandSource Rand}
    (cfg : Config) : list Simulation :=
  omap (runTrial cfg) (seqZ 0 (runs cfg)).

Definition scenarioResults {Rand : Type} {RS : RandSource Rand}
    (cfg : Config) : Results :=
  finish (foldl aggregate emptyAggregate (trialResults cfg)).

(** * The earlier revision of the program

    The second source file is the program before [deckSize], [simSeed]
    and [validateConfig] were introduced: the deck has 99 cards, the
    configuration is checked by three guards in [main], and decks are
    shuffled with the generator of package [math/rand] itself.  Its
    [runSimulation] and [checkComboWin] are those above. *)
Module Legacy.

(** [type Config struct], without [deckSize]. *)
Record Config := mkConfig {
  lands    : Z;
  combos   : Z;
  required : Z;
  runs     : Z;
  seed     : Z
}.

(** The [log.Fatalf] calls of [main], by their messages. *)
Inductive fatal :=
  | FatalRequiredExceedsCombos (required combos : Z)
  | FatalLandsPlusCombos (lands combos : Z)
  | FatalRuns.

(** The three guards of [main]; [None] when [main] goes on to
    [runScenario]. *)
Definition guards (cfg : Config) : option fatal :=
  if required cfg >? combos cfg
  then Some (FatalRequiredExceedsCombos (required cfg) (combos cfg))
  else if GoInt.add (lands cfg) (combos cfg) >? 99
  then Some (FatalLandsPlusCombos (lands cfg) (combos cfg))
  else if runs cfg <? 1 then Some FatalRuns
  else None.

(** [createDeck(cfg)]; [rng] is the package's generator as it stands
    when [rand.Shuffle] is called. *)
Definition createDeck {Rand : Type} {RS : RandSource Rand} (cfg : Config) (rng : Rand)
  : option (list Card) :=
  let numLands := lands cfg in
  let numNonLands := GoInt.sub 99 numLands in
  let numComboPieces := combos cfg in
  let deck := [] in
  let deck := appendN (Z.to_nat numLands) landCard deck in
  let deck := appendN (Z.to_nat (GoInt.sub numNonLands numComboPieces)) nonLandCard deck in
  let deck := appendN (Z.to_nat numComboPieces) comboCard deck in
  shuffleDeck deck rng.

End Legacy.

(** The configuration of the current program that stands for one of the
    earlier revision: the same fields, and a deck of 99 cards. *)
Definition upgrade (cfg : Legacy.Config) : Config :=
  mkConfig 99 (Legacy.lands cfg) (Legacy.combos cfg) (Legacy.required cfg)
           (Legacy.runs cfg) (Legacy.seed cfg).

(** * Notions used by the properties *)

(** The results the workers hold and have yet to send. *)
Definition held (ws : list (option Simulation)) : list Simulation := omap id ws.

(** What holds of the pool all along a run: the consuming loop has
    aggregated a list [done] of results, and these, the results in the
    output channel, the results held by workers and the results of the
    jobs in the job channel are, in some order, the results of the
    trials the producer has sent out. *)
Definition pool_inv {Rand : Type} {RS : RandSource Rand}
    (cfg : Config) (s : Pool) : Prop :=
  exists done : list Simulation,
    agg s = foldl aggregate emptyAggregate done /\
    0 <= nextJob s <= Z.max 0 (runs cfg) /\
    done ++ output s ++ held (workers s) ++ omap (runTrial cfg) (jobs s)
      ≡ₚ omap (runTrial cfg) (seqZ 0 (nextJob s)).

(** A slice of Go has a length that is an [int]. *)
Definition go_len {A : Type} (l : list A) : Prop :=
  Z.of_nat (length l) <= GoInt.max_int.

Definition comboCount (l : list Card) : nat :=
  length (filter (fun c => combo c = true) l).

Definition landCount (l : list Card) : nat :=
  length (filter (fun c => keyword c = "land"%string) l).

(** The kinds of card a deck is made of. *)
Definition isLand (c : Card) : Prop := keyword c = "land"%string.
Definition isComboNonLand (c : Card) : Prop := ~ isLand c /\ combo c = true.
Definition isPlainNonLand (c : Card) : Prop := ~ isLand c /\ combo c = false.

#[local] Instance isLand_dec c : Decision (isLand c) :=
  decide (keyword c = "land"%string).
#[local] Instance isComboNonLand_dec c : Decision (isComboNonLand c) :=
  decide (~ isLand c /\ combo c = true).
#[local] Instance isPlainNonLand_dec c : Decision (isPlainNonLand c) :=
  decide (~ isLand c /\ combo c = false).

Definition count (P : Card -> Prop) `{!forall c, Decision (P c)} (deck : list Card) : nat :=
  length (filter P deck).

(** The deck as the three loops of [createDeck] leave it. *)
Definition stackedDeck (cfg : Config) : list Card :=
  replicate (Z.to_nat (lands cfg)) landCard ++
  replicate (Z.to_nat (GoInt.sub (GoInt.sub (deckSize cfg) (lands cfg)) (combos cfg)))
            nonLandCard ++
  replicate (Z.to_nat (combos cfg)) comboCard.

(** The win check on the first [k] cards of the deck. *)
Definition winAt (deck : list Card) (required : Z) (k : nat) : bool :=
  checkComboWin (take k deck) required.

(** Index in the deck, from zero, of its [r]-th combo piece. *)
Fixpoint nthComboIndex (r : nat) (l : list Card) : option nat :=
  match l with
  | [] => None
  | c :: rest =>
      if combo c then
        match r with
        | O => None
        | S O => Some O
        | S r' => S <$> nthComboIndex r' rest
        end
      else S <$> nthComboIndex r rest
  end.

(** The card at index [i] is in hand after this many draws: none for a
    card of the opening seven. *)
Definition drawOfIndex (i : nat) : nat := (i + 1 - 7)%nat.

(** The hand held when a trial returns, and whether it passes the win
    check: the trial has won. *)
Definition handAtReturn (deck : list Card) (sim : Simulation) : list Card :=
  take (7 + Z.to_nat (drawsToWinCon sim)) deck.

Definition wins (deck : list Card) (required : Z) (sim : Simulation) : Prop :=
  checkComboWin (handAtReturn deck sim) required = true.

(** ** Inputs on which the theorems are run *)

(** A land, a combo piece, five plain cards, then a second combo piece
    and a land. *)
Definition sampleDeck : list Card :=
  [landCard; comboCard; nonLandCard; nonLandCard; nonLandCard;
   nonLandCard; nonLandCard; nonLandCard; comboCard; landCard].

(** The configuration of the repository's deck test: 60 cards, 24 lands,
    4 combo pieces. *)
Definition testConfig : Config := mkConfig 60 24 4 2 1 1.

(** A configuration of seven cards with [math.MaxInt64] lands and one
    combo piece. *)
Definition overflowConfig : Config :=
  mkConfig 7 9223372036854775807 1 1 1 1.

(** Nine cards, three lands, two combo pieces, both needed, three runs. *)
Definition smallConfig : Config := mkConfig 9 3 2 2 3 5.

(** A schedule of three trials on two workers, in which the results
    reach the consuming loop in the order of trials 1, 0, 2. *)
Definition interleaved : list action :=
  [Produce; Produce; Receive 1; Receive 0; Produce; Send 0; Receive 0;
   Send 1; Consume; Send 0; Consume; Consume].

(** The variables of the consuming loop after the three trials of
    [smallConfig]. *)
Definition smallAggregate : Aggregate :=
  mkAggregate (mkResults 3 Float64.zero 0 Float64.zero Float64.zero) 2 6 2.

(** ** Notions used by the further properties *)

(** The configuration with another base seed. *)
Definition withSeed (cfg : Config) (s : Z) : Config :=
  mkConfig (deckSize cfg) (lands cfg) (combos cfg) (required cfg) (runs cfg) s.

(** The number of steps a pool still has to take: four for each trial
    the producer has yet to send, three for each job in the job channel,
    two for each result held by a worker, one for each result in the
    output channel. *)
Definition stepsLeft (cfg : Config) (s : Pool) : Z :=
  4 * (Z.max 0 (runs cfg) - nextJob s) +
  3 * Z.of_nat (length (jobs s)) +
  2 * Z.of_nat (length (held (workers s))) +
  Z.of_nat (length (output s)).

(** The closure handed to [rng.Shuffle] with the indices it is declared
    with: [int]s.  An index expression [deck[i]] is in range when
    [0 <= i < len(deck)] and panics otherwise. *)
Definition indexInt (deck : list Card) (i : Z) : option Card :=
  if decide (0 <= i) then deck !! Z.to_nat i else None.

Definition swapInt (deck : list Card) (i j : Z) : option (list Card) :=
  ci ← indexInt deck i;
  cj ← indexInt deck j;
  Some (<[Z.to_nat j := ci]> (<[Z.to_nat i := cj]> deck)).

(** The number of cards the three loops of [createDeck] append. *)
Definition dealt (cfg : Config) : Z :=
  Z.max 0 (lands cfg) +
  Z.max 0 (GoInt.sub (GoInt.sub (deckSize cfg) (lands cfg)) (combos cfg)) +
  Z.max 0 (combos cfg).

(** A configuration that [validateConfig] turns down: a negative land
    count, more combo pieces required than there are, no runs. *)
Definition uncheckedConfig : Config := mkConfig 7 (-3) 2 5 0 1.

(** [sampleDeck] with its first card moved to the bottom. *)
Definition rotatedDeck : list Card :=
  [comboCard; nonLandCard; nonLandCard; nonLandCard; nonLandCard;
   nonLandCard; nonLandCard; comboCard; landCard; landCard].

(** The draws, the opening lands and the opening-hand wins of a list of
    trial results, added up over the integers. *)
Definition totalDraws (sims : list Simulation) : Z :=
  foldr (fun sim acc => drawsToWinCon sim + acc) 0 sims.

Definition totalLands (sims : list Simulation) : Z :=
  foldr (fun sim acc => openingHandLands sim + acc) 0 sims.

Definition openingWins (sims : list Simulation) : Z :=
  Z.of_nat (length (filter (fun sim => openingHandWin sim = true) sims)).

(** [Results{}], the zero value. *)
Definition zeroResults : Results :=
  mkResults 0 Float64.zero 0 Float64.zero Float64.zero.

(** ** Proof steps *)

(** Settles which of the three cards of [createDeck] are of a kind. *)
Ltac decide_cards :=
  repeat case_decide;
  unfold isComboNonLand, isPlainNonLand, isLand,
         landCard, nonLandCard, comboCard in *;
  cbn [keyword combo] in *;
  try solve [exfalso; intuition congruence];
  try lia.

(** Runs the pool on the actions at the head of a schedule. *)
Ltac pool_cbn :=
  cbn [exec step nextJob jobs workers output agg replicate
       mbind option_bind app lookup list_lookup insert list_insert].

Ltac int_range :=
  unfold wf_Config, GoInt.in_int, GoInt.min_int, GoInt.max_int in *;
  cbn [deckSize lands combos required runs seed] in *; lia.

(** * Properties *)

(** ** The Fisher-Yates generator meets the contract of [math/rand] *)

Lemma FisherYates_calls_range s i a b :
  (a, b) ∈ FisherYates.calls i s -> (a <= i)%nat /\ (b <= i)%nat.
Proof.
  revert s. induction i as [|i IH]; intros s H; cbn [FisherYates.calls] in H.
  - by apply elem_of_nil in H.
  - apply elem_of_cons in H as [H|H].
    + injection H as -> ->. split; [lia|].
      assert (0 <= FisherYates.next s mod Z.of_nat (S (S i)) < Z.of_nat (S (S i)))
        by (apply Z.mod_pos_bound; lia).
      lia.
    + apply IH in H. lia.
Qed.

Lemma FisherYates_shuffle_calls_range s n i j :
  (i, j) ∈ FisherYates.shuffle_calls s n -> (i < n)%nat /\ (j < n)%nat.
Proof.
  unfold FisherYates.shuffle_calls. destruct n as [|n]; simpl.
  - intros H. by apply elem_of_nil in H.
  - intros H. apply FisherYates_calls_range in H. lia.
Qed.

Definition FisherYates_rand : RandSource Z :=
  {| NewRand := fun s => s;
     ShuffleCalls := FisherYates.shuffle_calls;
     ShuffleCalls_range := FisherYates_shuffle_calls_range |}.

Example simSeed_42_0 : simSeed 42 0 = -4767286540954276203.
Proof. vm_compute. reflexivity. Qed.

(** ** Machine integers *)

Module GoIntFacts.
Import GoInt.

Lemma to_int64_id z : in_int z -> to_int64 z = z.
Proof.
  unfold in_int, min_int, max_int, to_int64. intros Hz.
  rewrite Z.mod_small; lia.
Qed.

Lemma to_int64_in_int z : in_int (to_int64 z).
Proof.
  unfold in_int, min_int, max_int, to_int64.
  pose proof (Z.mod_pos_bound (z + 2 ^ 63) (2 ^ 64)). lia.
Qed.

Lemma to_int64_mod z : to_int64 z mod 2 ^ 64 = z mod 2 ^ 64.
Proof.
  unfold to_int64.
  rewrite Zminus_mod_idemp_l. f_equal. lia.
Qed.

(** [to_int64] depends on the residue only. *)
Lemma to_int64_congr a b : a mod 2 ^ 64 = b mod 2 ^ 64 -> to_int64 a = to_int64 b.
Proof.
  intros H. unfold to_int64.
  rewrite <- (Zplus_mod_idemp_l a), <- (Zplus_mod_idemp_l b), H. reflexivity.
Qed.

Lemma add_no_wrap a b : in_int (a + b) -> add a b = a + b.
Proof. apply to_int64_id. Qed.

Lemma sub_no_wrap a b : in_int (a - b) -> sub a b = a - b.
Proof. apply to_int64_id. Qed.

Lemma add_to_int64_l a b : add (to_int64 a) b = to_int64 (a + b).
Proof.
  unfold add. apply to_int64_congr.
  rewrite <- Zplus_mod_idemp_l, to_int64_mod, Zplus_mod_idemp_l. reflexivity.
Qed.

(** Two additions to an accumulator commute, overflow or not. *)
Lemma add_add_comm a x y : add (add a x) y = add (add a y) x.
Proof.
  unfold add at 2 4. rewrite !add_to_int64_l. f_equal. lia.
Qed.

End GoIntFacts.

(** ** Counting cards *)

Lemma comboCount_cons c l :
  comboCount (c :: l) = ((if combo c then 1 else 0) + comboCount l)%nat.
Proof.
  unfold comboCount. rewrite filter_cons.
  destruct (combo c); simpl; reflexivity.
Qed.

Lemma comboCount_app l1 l2 : comboCount (l1 ++ l2) = (comboCount l1 + comboCount l2)%nat.
Proof. unfold comboCount. by rewrite filter_app, length_app. Qed.

Lemma comboCount_le_length l : (comboCount l <= length l)%nat.
Proof. apply length_filter. Qed.

Lemma comboCount_take_le k l : (comboCount (take k l) <= comboCount l)%nat.
Proof.
  rewrite <- (take_drop k l) at 2. rewrite comboCount_app. lia.
Qed.

Lemma comboCount_take_mono j k l :
  (j <= k)%nat -> (comboCount (take j l) <= comboCount (take k l))%nat.
Proof.
  intros Hjk. replace (take j l) with (take j (take k l)).
  - apply comboCount_take_le.
  - rewrite take_take. f_equal. lia.
Qed.

(** ** [checkComboWin]: the counter reaches [required] exactly when
    [required] is positive and at most the number of combo pieces held *)

Lemma checkComboWin_from_spec hand : forall count required,
  0 <= count ->
  count + Z.of_nat (length hand) <= GoInt.max_int ->
  checkComboWin_from count hand required =
  bool_decide (count < required <= count + Z.of_nat (comboCount hand)).
Proof.
  induction hand as [|c rest IH]; intros count required Hc Hlen.
  - simpl. symmetry. apply bool_decide_eq_false. unfold comboCount. simpl. lia.
  - cbn [checkComboWin_from]. rewrite comboCount_cons.
    cbn [length] in Hlen.
    pose proof (comboCount_le_length rest) as Hle.
    destruct (combo c).
    + rewrite GoIntFacts.add_no_wrap
        by (unfold GoInt.in_int, GoInt.min_int, GoInt.max_int in *; lia).
      destruct (Z.eqb_spec (count + 1) required) as [Heq|Hne].
      * symmetry. apply bool_decide_eq_true. lia.
      * rewrite IH by lia. apply bool_decide_ext. lia.
    + rewrite IH by lia. apply bool_decide_ext. lia.
Qed.

Lemma checkComboWin_spec hand required :
  Z.of_nat (length hand) <= GoInt.max_int ->
  checkComboWin hand required =
  bool_decide (0 < required <= Z.of_nat (comboCount hand)).
Proof.
  intros Hlen. unfold checkComboWin.
  rewrite checkComboWin_from_spec by lia. apply bool_decide_ext. lia.
Qed.

(** ** [runSimulation] *)

(** [hand = append(hand, drawn)] stores the drawn card in the cell it was
    read from: the array is left as it was and the hand grows by a cell. *)
Lemma append_hand_in_place (mem : list Card) (h : nat) (drawn : Card) :
  mem !! h = Some drawn -> append_hand mem h drawn = Some (mem, S h).
Proof.
  intros Hdrawn. unfold append_hand.
  pose proof (lookup_lt_Some _ _ _ Hdrawn) as Hlt.
  rewrite decide_True by exact Hlt.
  by rewrite list_insert_id.
Qed.

Section TrialRunner.

Variable deck : list Card.
Variable required : Z.

(** What the draw loop returns when it is entered with a hand of the
    first [h] cards, [n] cards left in the library and [h - 7] draws
    counted: it stops after [d] draws in all, at the first hand that
    passes the win check or at the end of the library. *)
Lemma drawLoop_spec (openingLands : Z) : forall (n h : nat),
  (h + n = length deck)%nat -> (7 <= h)%nat -> go_len deck ->
  exists d : nat,
    drawLoop required openingLands n h deck h (Z.of_nat h - 7)
      = Some (mkSimulation (Z.of_nat d) false openingLands) /\
    (h <= 7 + d <= length deck)%nat /\
    (forall k, (h < k < 7 + d)%nat -> winAt deck required k = false) /\
    (((h < 7 + d)%nat /\ winAt deck required (7 + d) = true) \/
     ((7 + d)%nat = length deck /\
      forall k, (h < k <= length deck)%nat -> winAt deck required k = false)).
Proof.
  induction n as [|n IH]; intros h Hn Hh Hlen.
  - exists (h - 7)%nat. cbn [drawLoop]. split; [|split; [|split]].
    + do 2 f_equal. lia.
    + lia.
    + intros k Hk. lia.
    + right. split; [lia|]. intros k Hk. lia.
  - cbn [drawLoop].
    destruct (deck !! h) as [drawn|] eqn:Hdrawn.
    2: { apply lookup_ge_None in Hdrawn. lia. }
    cbn [mbind option_bind].
    rewrite (append_hand_in_place _ _ _ Hdrawn). cbn [mbind option_bind].
    assert (Hcount : GoInt.add (Z.of_nat h - 7) 1 = Z.of_nat (S h) - 7).
    { rewrite GoIntFacts.add_no_wrap; [lia|].
      unfold go_len, GoInt.in_int, GoInt.min_int, GoInt.max_int in *. lia. }
    rewrite Hcount.
    fold (winAt deck required (S h)).
    destruct (winAt deck required (S h)) eqn:Hwin.
    + exists (S h - 7)%nat. split; [|split; [|split]].
      * do 2 f_equal. lia.
      * lia.
      * intros k Hk. lia.
      * left. split; [lia|]. by replace (7 + (S h - 7))%nat with (S h) by lia.
    + destruct (IH (S h)) as (d & Hrun & Hd & Hbefore & Hstop); [lia|lia|done|].
      exists d. split; [exact Hrun|]. split; [lia|]. split.
      * intros k Hk. destruct (decide (k = S h)) as [->|Hne]; [done|].
        apply Hbefore. lia.
      * destruct Hstop as [[Hlt Hw]|[Hend Hnever]].
        -- left. split; [lia|done].
        -- right. split; [done|]. intros k Hk.
           destruct (decide (k = S h)) as [->|Hne]; [done|].
           apply Hnever. lia.
Qed.

(** The trial runner in one statement: on a deck of at least seven
    cards it returns, and what it returns is fixed by the first hand
    size, counted from the opening seven, that passes the win check. *)
Lemma runSimulation_spec :
  (7 <= length deck)%nat -> go_len deck ->
  exists d : nat,
    runSimulation deck required
      = Some (mkSimulation (Z.of_nat d) (winAt deck required 7) (countLands 0 (take 7 deck))) /\
    (7 + d <= length deck)%nat /\
    (forall k, (7 <= k < 7 + d)%nat -> winAt deck required k = false) /\
    (winAt deck required (7 + d) = true \/
     ((7 + d)%nat = length deck /\
      forall k, (7 <= k <= length deck)%nat -> winAt deck required k = false)).
Proof.
  intros H7 Hlen. unfold runSimulation.
  rewrite decide_True by exact H7.
  fold (winAt deck required 7). destruct (winAt deck required 7) eqn:Hopen.
  - exists 0%nat. split; [done|]. split; [lia|]. split.
    + intros k Hk. lia.
    + left. exact Hopen.
  - destruct (drawLoop_spec (countLands 0 (take 7 deck)) (length deck - 7) 7)
      as (d & Hrun & Hd & Hbefore & Hstop); [lia|lia|done|].
    exists d. split; [exact Hrun|]. split; [lia|]. split.
    + intros k Hk. destruct (decide (k = 7%nat)) as [->|Hne]; [done|].
      apply Hbefore. lia.
    + destruct Hstop as [[_ Hw]|[Hend Hnever]]; [by left|].
      right. split; [done|]. intros k Hk.
      destruct (decide (k = 7%nat)) as [->|Hne]; [done|].
      apply Hnever. lia.
Qed.

End TrialRunner.

Lemma go_len_take {A : Type} (k : nat) (l : list A) : go_len l -> go_len (take k l).
Proof. unfold go_len. rewrite length_take. lia. Qed.

Lemma winAt_spec deck required k :
  go_len deck ->
  winAt deck required k =
  bool_decide (0 < required <= Z.of_nat (comboCount (take k deck))).
Proof. intros Hlen. apply checkComboWin_spec, go_len_take, Hlen. Qed.

Lemma winAt_7_spec deck required :
  winAt deck required 7 =
  bool_decide (0 < required <= Z.of_nat (comboCount (take 7 deck))).
Proof.
  apply checkComboWin_spec. rewrite length_take.
  unfold GoInt.max_int. lia.
Qed.

(** The land counter of the opening hand counts the land cards. *)
Lemma countLands_spec hand : forall openingLands,
  0 <= openingLands ->
  openingLands + Z.of_nat (length hand) <= GoInt.max_int ->
  countLands openingLands hand = openingLands + Z.of_nat (landCount hand).
Proof.
  induction hand as [|c rest IH]; intros n Hn Hlen.
  - unfold landCount. simpl. lia.
  - cbn [countLands]. cbn [length] in Hlen.
    unfold landCount in *. rewrite filter_cons.
    destruct (String.eqb_spec (keyword c) "land") as [Heq|Hne].
    + rewrite decide_True by exact Heq.
      rewrite GoIntFacts.add_no_wrap
        by (unfold GoInt.in_int, GoInt.min_int, GoInt.max_int in *; lia).
      rewrite IH by lia. cbn [length]. lia.
    + rewrite decide_False by exact Hne. apply IH; lia.
Qed.

(** C3. Opening-hand win: on a deck of at least seven cards and with a
    requirement of at least one, when the first seven cards hold at
    least [required] combo pieces the trial returns zero draws and the
    opening-hand flag set. *)
Theorem opening_hand_win (deck : list Card) (required : Z) :
  (7 <= length deck)%nat ->
  1 <= required ->
  required <= Z.of_nat (comboCount (take 7 deck)) ->
  exists sim,
    runSimulation deck required = Some sim /\
    drawsToWinCon sim = 0 /\ openingHandWin sim = true.
Proof.
  intros H7 Hreq Hcombo. unfold runSimulation.
  rewrite decide_True by exact H7.
  fold (winAt deck required 7). rewrite winAt_7_spec.
  rewrite bool_decide_eq_true_2 by lia.
  eexists. split; [reflexivity|]. split; reflexivity.
Qed.

Lemma opening_hand_win_witness :
  (7 <= length sampleDeck)%nat /\ 1 <= 1 /\
  1 <= Z.of_nat (comboCount (take 7 sampleDeck)) /\
  exists sim,
    runSimulation sampleDeck 1 = Some sim /\
    drawsToWinCon sim = 0 /\ openingHandWin sim = true.
Proof.
  split; [simpl; lia|]. split; [lia|]. split; [vm_compute; discriminate|].
  apply (opening_hand_win sampleDeck 1); [simpl; lia | lia | vm_compute; discriminate].
Defined.

(** C5. Exhaustion bound: on a deck of at least seven cards (a slice,
    so of a length that is an [int]) the trial returns, and its draw
    count lies between zero and the size of the library,
    [len(deck) - 7], whatever the requirement. *)
Theorem draws_to_win_bounded (deck : list Card) (required : Z) :
  (7 <= length deck)%nat -> go_len deck ->
  exists sim,
    runSimulation deck required = Some sim /\
    0 <= drawsToWinCon sim <= Z.of_nat (length deck) - 7.
Proof.
  intros H7 Hlen.
  destruct (runSimulation_spec deck required H7 Hlen) as (d & Hrun & Hd & _).
  eexists. split; [exact Hrun|]. cbn [drawsToWinCon]. lia.
Qed.

Lemma draws_to_win_bounded_witness :
  (7 <= length sampleDeck)%nat /\ go_len sampleDeck /\
  exists sim,
    runSimulation sampleDeck 2 = Some sim /\
    0 <= drawsToWinCon sim <= Z.of_nat (length sampleDeck) - 7.
Proof.
  split; [simpl; lia|]. split; [vm_compute; discriminate|].
  apply (draws_to_win_bounded sampleDeck 2); [simpl; lia | vm_compute; discriminate].
Defined.

(** No hand of the deck passes the win check when the requirement is
    not positive or exceeds the combo pieces of the whole deck. *)
Lemma winAt_never deck required k :
  go_len deck ->
  required <= 0 \/ Z.of_nat (comboCount deck) < required ->
  winAt deck required k = false.
Proof.
  intros Hlen Hreq. rewrite winAt_spec by exact Hlen.
  apply bool_decide_eq_false.
  pose proof (comboCount_take_le k deck). lia.
Qed.

Lemma runSimulation_never_wins deck required :
  (7 <= length deck)%nat -> go_len deck ->
  required <= 0 \/ Z.of_nat (comboCount deck) < required ->
  exists sim,
    runSimulation deck required = Some sim /\
    drawsToWinCon sim = Z.of_nat (length deck) - 7 /\
    openingHandWin sim = false.
Proof.
  intros H7 Hlen Hreq.
  destruct (runSimulation_spec deck required H7 Hlen)
    as (d & Hrun & Hd & _ & Hstop).
  eexists. split; [exact Hrun|]. cbn [drawsToWinCon openingHandWin].
  split; [|by apply winAt_never].
  destruct Hstop as [Hw|[Hend _]]; [|lia].
  rewrite winAt_never in Hw by done. discriminate.
Qed.

(** C6. Never-winning decks exhaust the library: a deck of at least
    seven cards (a slice, so of a length that is an [int]) that holds
    fewer combo pieces than a requirement of at least one makes the
    trial return [len(deck) - 7] draws and no opening-hand win. *)
Theorem never_winning_deck_exhausts_library (deck : list Card) (required : Z) :
  (7 <= length deck)%nat -> go_len deck ->
  1 <= required ->
  Z.of_nat (comboCount deck) < required ->
  exists sim,
    runSimulation deck required = Some sim /\
    drawsToWinCon sim = Z.of_nat (length deck) - 7 /\
    openingHandWin sim = false.
Proof.
  intros H7 Hlen _ Hfew. apply runSimulation_never_wins; auto.
Qed.

Lemma never_winning_deck_exhausts_library_witness :
  (7 <= length sampleDeck)%nat /\ go_len sampleDeck /\ 1 <= 3 /\
  Z.of_nat (comboCount sampleDeck) < 3 /\
  exists sim,
    runSimulation sampleDeck 3 = Some sim /\
    drawsToWinCon sim = Z.of_nat (length sampleDeck) - 7 /\
    openingHandWin sim = false.
Proof.
  split; [simpl; lia|]. split; [vm_compute; discriminate|].
  split; [lia|]. split; [vm_compute; reflexivity|].
  apply (never_winning_deck_exhausts_library sampleDeck 3);
    [simpl; lia | vm_compute; discriminate | lia | vm_compute; reflexivity].
Defined.

(** C9. A requirement of zero: [checkComboWin] answers [false] on every
    hand (a slice, so of a length that is an [int]), and a trial run
    with it on a deck of at least seven cards reports no opening-hand
    win and draws the whole library, [len(deck) - 7] cards. *)
Theorem required_zero_never_wins :
  (forall hand : list Card, go_len hand -> checkComboWin hand 0 = false) /\
  (forall deck : list Card,
     (7 <= length deck)%nat -> go_len deck ->
     exists sim,
       runSimulation deck 0 = Some sim /\
       openingHandWin sim = false /\
       drawsToWinCon sim = Z.of_nat (length deck) - 7).
Proof.
  split.
  - intros hand Hlen. rewrite checkComboWin_spec by exact Hlen.
    apply bool_decide_eq_false. lia.
  - intros deck H7 Hlen.
    destruct (runSimulation_never_wins deck 0 H7 Hlen) as (sim & Hrun & Hd & Hw);
      [left; lia|].
    exists sim. auto.
Qed.

Lemma required_zero_never_wins_witness :
  (go_len sampleDeck /\ checkComboWin sampleDeck 0 = false) /\
  ((7 <= length sampleDeck)%nat /\ go_len sampleDeck /\
   exists sim,
     runSimulation sampleDeck 0 = Some sim /\
     openingHandWin sim = false /\
     drawsToWinCon sim = Z.of_nat (length sampleDeck) - 7).
Proof.
  assert (Hlen : go_len sampleDeck) by (vm_compute; discriminate).
  assert (H7 : (7 <= length sampleDeck)%nat) by (simpl; lia).
  split.
  - split; [exact Hlen|]. exact (proj1 required_zero_never_wins sampleDeck Hlen).
  - split; [exact H7|]. split; [exact Hlen|].
    exact (proj2 required_zero_never_wins sampleDeck H7 Hlen).
Defined.

(** ** The draw at which the requirement is met *)

Lemma nthComboIndex_spec l : forall r i,
  nthComboIndex r l = Some i <->
  (comboCount (take i l) < r)%nat /\ comboCount (take (S i) l) = r /\
  (i < length l)%nat.
Proof.
  induction l as [|c rest IH]; intros r i.
  - simpl. split; [discriminate|]. intros (_ & _ & H). lia.
  - cbn [nthComboIndex]. destruct (combo c) eqn:Hc.
    + destruct r as [|[|r]].
      * split; [discriminate|]. intros (H & _). lia.
      * destruct i as [|i]; cbn [take length]; rewrite ?comboCount_cons, Hc.
        -- split; [intros _|done]. rewrite take_0. unfold comboCount. simpl. lia.
        -- split; [discriminate|]. intros (H & _). lia.
      * rewrite fmap_Some. destruct i as [|i]; cbn [take length];
          rewrite ?comboCount_cons, Hc.
        -- split; [intros (x & _ & Hx); discriminate|].
           rewrite take_0. unfold comboCount. simpl. intros (_ & H & _). lia.
        -- split.
           ++ intros (x & Hx & Heq). injection Heq as <-.
              apply IH in Hx. cbn [take] in Hx. lia.
           ++ intros H. exists i. split; [|done]. apply IH. cbn [take]. lia.
    + rewrite fmap_Some. destruct i as [|i]; cbn [take length];
        rewrite ?comboCount_cons, Hc.
      * split; [intros (x & _ & Hx); discriminate|].
        rewrite take_0. unfold comboCount. simpl. intros (H1 & H2 & _). lia.
      * split.
        -- intros (x & Hx & Heq). injection Heq as <-.
           apply IH in Hx. cbn [take] in Hx. lia.
        -- intros H. exists i. split; [|done]. apply IH. cbn [take]. lia.
Qed.

Lemma nthComboIndex_exists l : forall r,
  (1 <= r <= comboCount l)%nat -> exists i, nthComboIndex r l = Some i.
Proof.
  induction l as [|c rest IH]; intros r Hr.
  - unfold comboCount in Hr. simpl in Hr. lia.
  - cbn [nthComboIndex]. rewrite comboCount_cons in Hr.
    destruct (combo c).
    + destruct r as [|[|r]]; [lia|by exists 0%nat|].
      destruct (IH (S r)) as [i Hi]; [lia|]. rewrite Hi. by exists (S i).
    + destruct (IH r) as [i Hi]; [lia|]. rewrite Hi. by exists (S i).
Qed.

(** Where a winning trial stops. *)
Lemma first_win_is_nth_combo deck (r d : nat) :
  (1 <= r)%nat ->
  (r <= comboCount (take (7 + d) deck))%nat ->
  (forall k, (7 <= k < 7 + d)%nat -> (comboCount (take k deck) < r)%nat) ->
  exists i, nthComboIndex r deck = Some i /\ drawOfIndex i = d.
Proof.
  intros Hr Hwin Hbefore.
  destruct (nthComboIndex_exists deck r) as [i Hi].
  { pose proof (comboCount_take_le (7 + d) deck). lia. }
  exists i. split; [exact Hi|].
  apply nthComboIndex_spec in Hi as (Hlt & Heq & Hi).
  unfold drawOfIndex.
  assert (Hup : (i < 7 + d)%nat).
  { destruct (decide (i < 7 + d)%nat) as [|Hge]; [done|].
    pose proof (comboCount_take_mono (7 + d) i deck). lia. }
  destruct d as [|d]; [lia|].
  assert (Hlow : (7 + d <= i)%nat).
  { destruct (decide (7 + d <= i)%nat) as [|Hlt']; [done|].
    pose proof (Hbefore (7 + d)%nat).
    pose proof (comboCount_take_mono (S i) (7 + d) deck). lia. }
  lia.
Qed.

(** A trial wins exactly when the deck holds enough combo pieces for a
    positive requirement. *)
Lemma wins_iff_enough_combos deck required sim :
  (7 <= length deck)%nat -> go_len deck ->
  runSimulation deck required = Some sim ->
  wins deck required sim <-> 1 <= required <= Z.of_nat (comboCount deck).
Proof.
  intros H7 Hlen Hrun.
  destruct (runSimulation_spec deck required H7 Hlen)
    as (d & Hrun' & Hd & Hbefore & Hstop).
  rewrite Hrun in Hrun'. injection Hrun' as ->.
  unfold wins, handAtReturn. cbn [drawsToWinCon]. rewrite Nat2Z.id.
  fold (winAt deck required (7 + d)). split.
  - rewrite winAt_spec by done. intros Hw%bool_decide_eq_true.
    pose proof (comboCount_take_le (7 + d) deck). lia.
  - intros Hreq. destruct Hstop as [Hw|[Hend Hnever]]; [done|].
    rewrite winAt_spec by done. apply bool_decide_eq_true.
    rewrite Hend, firstn_all. lia.
Qed.

(** C7. Win-condition monotonicity: on a deck of at least seven cards
    (a slice, so of a length that is an [int]), when the trial with
    requirement [r] wins after [d] draws, the trial
    with any requirement [r'], [1 <= r' <= r], wins too and after at
    most [d] draws; and [d] is the draw that brings the [r]-th combo
    piece of the deck into hand, zero when that piece is among the
    opening seven. *)
Theorem win_monotone_in_requirement (deck : list Card) (r r' : Z) (sim : Simulation) :
  (7 <= length deck)%nat -> go_len deck ->
  1 <= r' <= r ->
  runSimulation deck r = Some sim ->
  wins deck r sim ->
  (exists sim',
     runSimulation deck r' = Some sim' /\ wins deck r' sim' /\
     drawsToWinCon sim' <= drawsToWinCon sim) /\
  (exists i,
     nthComboIndex (Z.to_nat r) deck = Some i /\
     drawsToWinCon sim = Z.of_nat (drawOfIndex i)).
Proof.
  intros H7 Hlen Hr Hrun Hwins.
  destruct (runSimulation_spec deck r H7 Hlen) as (d & Hrun' & Hd & Hbefore & _).
  rewrite Hrun in Hrun'. injection Hrun' as ->.
  unfold wins, handAtReturn in Hwins. cbn [drawsToWinCon] in *.
  rewrite Nat2Z.id in Hwins. fold (winAt deck r (7 + d)) in Hwins.
  rewrite winAt_spec in Hwins by done. apply bool_decide_eq_true in Hwins.
  split.
  - destruct (runSimulation_spec deck r' H7 Hlen)
      as (d' & Hrun' & Hd' & Hbefore' & Hstop').
    assert (Hw' : winAt deck r' (7 + d) = true).
    { rewrite winAt_spec by done. apply bool_decide_eq_true. lia. }
    assert (Hle : (d' <= d)%nat).
    { destruct (decide (d' <= d)%nat) as [|Hgt]; [done|].
      rewrite Hbefore' in Hw' by lia. discriminate. }
    eexists. split; [exact Hrun'|]. split.
    + unfold wins, handAtReturn. cbn [drawsToWinCon]. rewrite Nat2Z.id.
      fold (winAt deck r' (7 + d')).
      destruct Hstop' as [Hw|[_ Hnever]]; [done|].
      rewrite Hnever in Hw' by lia. discriminate.
    + cbn [drawsToWinCon]. lia.
  - destruct (first_win_is_nth_combo deck (Z.to_nat r) d) as (i & Hi & Hdraw);
      [lia|lia| |].
    + intros k Hk. specialize (Hbefore k Hk).
      rewrite winAt_spec in Hbefore by done.
      apply bool_decide_eq_false in Hbefore. lia.
    + exists i. split; [exact Hi|]. by rewrite Hdraw.
Qed.

Lemma win_monotone_in_requirement_witness :
  (7 <= length sampleDeck)%nat /\ go_len sampleDeck /\ 1 <= 1 <= 2 /\
  runSimulation sampleDeck 2 = Some (mkSimulation 2 false 1) /\
  wins sampleDeck 2 (mkSimulation 2 false 1) /\
  (exists sim',
     runSimulation sampleDeck 1 = Some sim' /\ wins sampleDeck 1 sim' /\
     drawsToWinCon sim' <= 2) /\
  (exists i,
     nthComboIndex 2 sampleDeck = Some i /\ 2 = Z.of_nat (drawOfIndex i)).
Proof.
  assert (H7 : (7 <= length sampleDeck)%nat) by (simpl; lia).
  assert (Hlen : go_len sampleDeck) by (vm_compute; discriminate).
  assert (Hr : 1 <= 1 <= 2) by lia.
  assert (Hrun : runSimulation sampleDeck 2 = Some (mkSimulation 2 false 1))
    by (vm_compute; reflexivity).
  assert (Hwins : wins sampleDeck 2 (mkSimulation 2 false 1))
    by (vm_compute; reflexivity).
  split; [exact H7|]. split; [exact Hlen|]. split; [exact Hr|].
  split; [exact Hrun|]. split; [exact Hwins|].
  exact (win_monotone_in_requirement sampleDeck 2 1 _ H7 Hlen Hr Hrun Hwins).
Defined.

(** ** [shuffleDeck] and [createDeck] *)

Lemma swap_spec (deck : list Card) (i j : nat) :
  (i < length deck)%nat -> (j < length deck)%nat ->
  exists deck', swap deck i j = Some deck' /\ deck' ≡ₚ deck.
Proof.
  intros Hi Hj. unfold swap.
  destruct (lookup_lt_is_Some_2 deck i Hi) as [ci Hci].
  destruct (lookup_lt_is_Some_2 deck j Hj) as [cj Hcj].
  rewrite Hci, Hcj. cbn [mbind option_bind].
  eexists. split; [reflexivity|]. by apply Permutation_insert_swap.
Qed.

Lemma apply_swaps_spec (calls : list (nat * nat)) : forall deck : list Card,
  (forall i j, (i, j) ∈ calls -> (i < length deck)%nat /\ (j < length deck)%nat) ->
  exists deck', apply_swaps calls deck = Some deck' /\ deck' ≡ₚ deck.
Proof.
  induction calls as [|[i j] rest IH]; intros deck Hrange.
  - exists deck. by split.
  - cbn [apply_swaps].
    destruct (Hrange i j) as [Hi Hj]; [by left|].
    destruct (swap_spec deck i j Hi Hj) as (deck1 & -> & Hperm1).
    cbn [mbind option_bind].
    destruct (IH deck1) as (deck2 & Hrun & Hperm2).
    { intros a b Hab. rewrite Hperm1. apply Hrange. by right. }
    exists deck2. split; [exact Hrun|]. by rewrite Hperm2.
Qed.

Section DeckBuilder.

Context {Rand : Type} {RS : RandSource Rand}.

(** The shuffle never indexes out of range, and rearranges the deck. *)
Lemma shuffleDeck_spec (deck : list Card) (rng : Rand) :
  exists deck', shuffleDeck deck rng = Some deck' /\ deck' ≡ₚ deck.
Proof.
  unfold shuffleDeck. apply apply_swaps_spec.
  intros i j Hij. by apply ShuffleCalls_range in Hij.
Qed.

End DeckBuilder.

Lemma appendN_spec (n : nat) (c : Card) : forall deck,
  appendN n c deck = deck ++ replicate n c.
Proof.
  induction n as [|n IH]; intros deck; cbn [appendN replicate].
  - by rewrite app_nil_r.
  - rewrite IH, <- app_assoc. reflexivity.
Qed.

Lemma createDeck_unfold {Rand : Type} {RS : RandSource Rand} (cfg : Config) (rng : Rand) :
  createDeck cfg rng = shuffleDeck (stackedDeck cfg) rng.
Proof.
  unfold createDeck, stackedDeck. rewrite !appendN_spec, app_nil_l, <- app_assoc.
  reflexivity.
Qed.

Lemma length_filter_replicate (P : Card -> Prop) `{!forall c, Decision (P c)}
    (n : nat) (c : Card) :
  length (filter P (replicate n c)) = if decide (P c) then n else 0%nat.
Proof.
  induction n as [|n IH]; cbn [replicate].
  - by destruct (decide (P c)).
  - rewrite filter_cons. destruct (decide (P c)); cbn [length]; by rewrite ?IH.
Qed.

Lemma count_stackedDeck (P : Card -> Prop) `{!forall c, Decision (P c)} (cfg : Config) :
  count P (stackedDeck cfg) =
  ((if decide (P landCard) then Z.to_nat (lands cfg) else 0) +
   ((if decide (P nonLandCard)
     then Z.to_nat (GoInt.sub (GoInt.sub (deckSize cfg) (lands cfg)) (combos cfg))
     else 0) +
    (if decide (P comboCard) then Z.to_nat (combos cfg) else 0)))%nat.
Proof.
  unfold count, stackedDeck.
  by rewrite !filter_app, !length_app, !length_filter_replicate.
Qed.

Lemma length_stackedDeck (cfg : Config) :
  length (stackedDeck cfg) =
  (Z.to_nat (lands cfg) +
   (Z.to_nat (GoInt.sub (GoInt.sub (deckSize cfg) (lands cfg)) (combos cfg)) +
    Z.to_nat (combos cfg)))%nat.
Proof. unfold stackedDeck. by rewrite !length_app, !length_replicate. Qed.

(** The number of plain cards, when lands and combo pieces fit the deck. *)
Lemma plain_count_no_wrap (cfg : Config) :
  wf_Config cfg -> 0 <= lands cfg -> 0 <= combos cfg ->
  lands cfg + combos cfg <= deckSize cfg ->
  GoInt.sub (GoInt.sub (deckSize cfg) (lands cfg)) (combos cfg)
  = deckSize cfg - lands cfg - combos cfg.
Proof.
  intros (Hd & _) Hl Hc Hfit.
  unfold GoInt.in_int, GoInt.min_int, GoInt.max_int in Hd.
  rewrite (GoIntFacts.sub_no_wrap (deckSize cfg))
    by (unfold GoInt.in_int, GoInt.min_int, GoInt.max_int; lia).
  apply GoIntFacts.sub_no_wrap.
  unfold GoInt.in_int, GoInt.min_int, GoInt.max_int. lia.
Qed.

(** C2. Deck composition: for a configuration of [int] fields with
    non-negative land and combo counts that fit the deck size, and any
    random stream,
    [createDeck] returns a deck of exactly [deckSize] cards, of which
    exactly [lands] are lands, exactly [combos] are combo-marked
    non-lands and the remaining [deckSize - lands - combos] are plain
    non-lands; no land is marked as a combo piece. *)
Theorem deck_composition {Rand : Type} {RS : RandSource Rand}
    (cfg : Config) (rng : Rand) :
  wf_Config cfg ->
  0 <= lands cfg -> 0 <= combos cfg ->
  lands cfg + combos cfg <= deckSize cfg ->
  exists deck,
    createDeck cfg rng = Some deck /\
    Z.of_nat (length deck) = deckSize cfg /\
    Z.of_nat (count isLand deck) = lands cfg /\
    Z.of_nat (count isComboNonLand deck) = combos cfg /\
    Z.of_nat (count isPlainNonLand deck) = deckSize cfg - lands cfg - combos cfg /\
    Forall (fun c => isLand c -> combo c = false) deck.
Proof.
  intros Hwf Hl Hc Hfit. rewrite createDeck_unfold.
  destruct (shuffleDeck_spec (stackedDeck cfg) rng) as (deck & Hrun & Hperm).
  exists deck. split; [exact Hrun|].
  pose proof (plain_count_no_wrap cfg Hwf Hl Hc Hfit) as Hplain.
  unfold count. rewrite !Hperm.
  fold (count isLand (stackedDeck cfg)) (count isComboNonLand (stackedDeck cfg))
       (count isPlainNonLand (stackedDeck cfg)).
  rewrite length_stackedDeck, !count_stackedDeck, Hplain.
  split; [|split; [|split; [|split]]].
  - lia.
  - decide_cards.
  - decide_cards.
  - decide_cards.
  - unfold stackedDeck. rewrite !Forall_app.
    split; [|split]; apply Forall_replicate; unfold isLand; cbn;
      intros Hland; [reflexivity | reflexivity | discriminate Hland].
Qed.

Lemma deck_composition_witness :
  wf_Config testConfig /\ 0 <= lands testConfig /\ 0 <= combos testConfig /\
  lands testConfig + combos testConfig <= deckSize testConfig /\
  exists deck,
    createDeck (RS := FisherYates_rand) testConfig 1 = Some deck /\
    Z.of_nat (length deck) = deckSize testConfig /\
    Z.of_nat (count isLand deck) = lands testConfig /\
    Z.of_nat (count isComboNonLand deck) = combos testConfig /\
    Z.of_nat (count isPlainNonLand deck)
      = deckSize testConfig - lands testConfig - combos testConfig /\
    Forall (fun c => isLand c -> combo c = false) deck.
Proof.
  assert (Hwf : wf_Config testConfig) by (unfold testConfig; int_range).
  assert (Hl : 0 <= lands testConfig) by (cbn; lia).
  assert (Hc : 0 <= combos testConfig) by (cbn; lia).
  assert (Hfit : lands testConfig + combos testConfig <= deckSize testConfig)
    by (cbn; lia).
  split; [exact Hwf|]. split; [exact Hl|]. split; [exact Hc|]. split; [exact Hfit|].
  exact (deck_composition (RS := FisherYates_rand) testConfig 1 Hwf Hl Hc Hfit).
Defined.

(** ** Safety of [runSimulation] *)

Lemma drawLoop_total (required openingLands : Z) (deck : list Card) :
  forall (n h : nat) (drawCount : Z),
    (h + n = length deck)%nat ->
    is_Some (drawLoop required openingLands n h deck h drawCount).
Proof.
  induction n as [|n IH]; intros h drawCount Hn; cbn [drawLoop].
  - by eexists.
  - destruct (deck !! h) as [drawn|] eqn:Hdrawn.
    2: { apply lookup_ge_None in Hdrawn. lia. }
    cbn [mbind option_bind].
    rewrite (append_hand_in_place _ _ _ Hdrawn). cbn [mbind option_bind].
    destruct (checkComboWin (take (S h) deck) required); [by eexists|].
    apply IH. lia.
Qed.

Lemma runSimulation_safe_iff (deck : list Card) (required : Z) :
  is_Some (runSimulation deck required) <-> (7 <= length deck)%nat.
Proof.
  unfold runSimulation. destruct (decide (7 <= length deck)%nat) as [H7|H7].
  - split; [done|]. intros _.
    destruct (checkComboWin (take 7 deck) required); [by eexists|].
    apply drawLoop_total. lia.
  - split; [|done]. intros [sim Hsim]. discriminate.
Qed.

(** A configuration that [validateConfig] lets through passes each of
    its seven tests. *)
Lemma validateConfig_None (cfg : Config) :
  validateConfig cfg = None <->
  7 <= deckSize cfg /\ 0 <= lands cfg /\ 0 <= combos cfg /\
  1 <= required cfg /\ required cfg <= combos cfg /\
  GoInt.add (lands cfg) (combos cfg) <= deckSize cfg /\ 1 <= runs cfg.
Proof.
  unfold validateConfig.
  destruct (Z.ltb_spec (deckSize cfg) 7); [split; [discriminate|lia]|].
  destruct (Z.ltb_spec (lands cfg) 0); [split; [discriminate|lia]|].
  destruct (Z.ltb_spec (combos cfg) 0); [split; [discriminate|lia]|].
  destruct (Z.ltb_spec (required cfg) 1); [split; [discriminate|lia]|].
  destruct (Z.gtb_spec (required cfg) (combos cfg)); [split; [discriminate|lia]|].
  destruct (Z.gtb_spec (GoInt.add (lands cfg) (combos cfg)) (deckSize cfg));
    [split; [discriminate|lia]|].
  destruct (Z.ltb_spec (runs cfg) 1); [split; [discriminate|lia]|].
  split; [lia|done].
Qed.

(** Every deck built for an accepted configuration has seven cards or
    more, and exactly [deckSize] of them when lands and combo pieces fit
    the deck. *)
Lemma createDeck_length {Rand : Type} {RS : RandSource Rand}
    (cfg : Config) (rng : Rand) :
  wf_Config cfg -> validateConfig cfg = None ->
  exists deck,
    createDeck cfg rng = Some deck /\
    (7 <= length deck)%nat /\
    (lands cfg + combos cfg <= deckSize cfg ->
     Z.of_nat (length deck) = deckSize cfg).
Proof.
  intros Hwf Hvalid. apply validateConfig_None in Hvalid.
  rewrite createDeck_unfold.
  destruct (shuffleDeck_spec (stackedDeck cfg) rng) as (deck & Hrun & Hperm).
  exists deck. split; [exact Hrun|].
  rewrite Hperm, length_stackedDeck.
  destruct (decide (lands cfg + combos cfg <= deckSize cfg)) as [Hfit|Hover].
  - rewrite (plain_count_no_wrap cfg) by (done || lia). split; [lia|]. lia.
  - split; [lia|]. intros Hfit. lia.
Qed.

(** Every deck that [createDeck] returns as a slice for an accepted
    configuration has exactly [deckSize] cards: more lands and combo
    pieces than that get past [validateConfig] only when their sum is
    no [int], and then the cards dealt are too many for a slice. *)
Lemma createDeck_slice_length {Rand : Type} {RS : RandSource Rand}
    (cfg : Config) (rng : Rand) (deck : list Card) :
  wf_Config cfg -> validateConfig cfg = None ->
  createDeck cfg rng = Some deck -> go_len deck ->
  Z.of_nat (length deck) = deckSize cfg.
Proof.
  intros Hwf Hvalid Hdeck Hlen. apply validateConfig_None in Hvalid as Hv.
  rewrite createDeck_unfold in Hdeck.
  destruct (shuffleDeck_spec (stackedDeck cfg) rng) as (deck' & Hrun & Hperm).
  rewrite Hrun in Hdeck. injection Hdeck as ->.
  unfold go_len in Hlen. rewrite Hperm, length_stackedDeck in *.
  assert (Hfit : lands cfg + combos cfg <= deckSize cfg).
  { destruct (decide (GoInt.in_int (lands cfg + combos cfg))) as [Hin|Hout].
    - rewrite GoIntFacts.add_no_wrap in Hv by exact Hin. lia.
    - unfold GoInt.in_int, GoInt.min_int, GoInt.max_int in *. lia. }
  rewrite (plain_count_no_wrap cfg) by (done || lia). lia.
Qed.

(** C10. Safety of the trial runner: [runSimulation] returns (no slice
    or index expression is out of range) exactly when the deck has at
    least seven cards; every deck (a slice, so of a length that is an
    [int]) that [createDeck] returns for a configuration accepted by
    [validateConfig] has exactly [deckSize] cards, which are seven or
    more, so [runSimulation] returns on it; and [createDeck] does
    return such a deck when the sum of lands and combo pieces is an
    [int]. *)
Theorem runSimulation_safe_on_validated_decks :
  (forall (deck : list Card) (required : Z),
     is_Some (runSimulation deck required) <-> (7 <= length deck)%nat) /\
  (forall (Rand : Type) (RS : RandSource Rand) (cfg : Config) (rng : Rand)
          (deck : list Card),
     wf_Config cfg -> validateConfig cfg = None ->
     createDeck cfg rng = Some deck -> go_len deck ->
     Z.of_nat (length deck) = deckSize cfg /\
     (7 <= length deck)%nat /\
     is_Some (runSimulation deck (required cfg))) /\
  (forall (Rand : Type) (RS : RandSource Rand) (cfg : Config) (rng : Rand),
     wf_Config cfg -> validateConfig cfg = None ->
     GoInt.in_int (lands cfg + combos cfg) ->
     exists deck, createDeck cfg rng = Some deck /\ go_len deck).
Proof.
  split; [exact runSimulation_safe_iff|]. split.
  - intros Rand RS cfg rng deck Hwf Hvalid Hdeck Hlen.
    pose proof (createDeck_slice_length cfg rng deck Hwf Hvalid Hdeck Hlen) as Hsize.
    apply validateConfig_None in Hvalid as (Hseven & _).
    assert (H7 : (7 <= length deck)%nat) by lia.
    split; [exact Hsize|]. split; [exact H7|].
    by apply runSimulation_safe_iff.
  - intros Rand RS cfg rng Hwf Hvalid Hin.
    destruct (createDeck_length cfg rng Hwf Hvalid) as (deck & Hdeck & _ & Hexact).
    exists deck. split; [exact Hdeck|].
    apply validateConfig_None in Hvalid as Hv.
    rewrite GoIntFacts.add_no_wrap in Hv by exact Hin.
    unfold go_len. rewrite Hexact by lia. int_range.
Qed.

Lemma runSimulation_safe_on_validated_decks_witness :
  (is_Some (runSimulation sampleDeck 2) <-> (7 <= length sampleDeck)%nat) /\
  wf_Config testConfig /\ validateConfig testConfig = None /\
  GoInt.in_int (lands testConfig + combos testConfig) /\
  exists deck,
    createDeck (RS := FisherYates_rand) testConfig 1 = Some deck /\
    go_len deck /\
    Z.of_nat (length deck) = deckSize testConfig /\
    (7 <= length deck)%nat /\
    is_Some (runSimulation deck (required testConfig)).
Proof.
  assert (Hwf : wf_Config testConfig) by (unfold testConfig; int_range).
  assert (Hvalid : validateConfig testConfig = None) by (vm_compute; reflexivity).
  assert (Hin : GoInt.in_int (lands testConfig + combos testConfig))
    by (unfold GoInt.in_int, GoInt.min_int, GoInt.max_int; cbn; lia).
  split; [exact (proj1 runSimulation_safe_on_validated_decks sampleDeck 2)|].
  split; [exact Hwf|]. split; [exact Hvalid|]. split; [exact Hin|].
  destruct (proj2 (proj2 runSimulation_safe_on_validated_decks)
              Z FisherYates_rand testConfig 1 Hwf Hvalid Hin) as (deck & Hdeck & Hlen).
  exists deck. split; [exact Hdeck|]. split; [exact Hlen|].
  exact (proj1 (proj2 runSimulation_safe_on_validated_decks)
           Z FisherYates_rand testConfig 1 deck Hwf Hvalid Hdeck Hlen).
Defined.

(** ** [validateConfig] against the error taxonomy *)

(** Every configuration that is turned down meets one of the failure
    conditions. *)
Lemma validateConfig_error_invalid (cfg : Config) :
  wf_Config cfg -> is_Some (validateConfig cfg) -> invalid cfg.
Proof.
  intros Hwf Herr.
  destruct (validateConfig cfg) as [e|] eqn:Hv; [clear Herr|by destruct Herr].
  assert (Hnot : validateConfig cfg <> None) by congruence.
  rewrite validateConfig_None in Hnot. unfold invalid.
  destruct (decide (GoInt.in_int (lands cfg + combos cfg))) as [Hin|Hout].
  - rewrite GoIntFacts.add_no_wrap in Hnot by exact Hin. lia.
  - unfold GoInt.in_int, GoInt.min_int, GoInt.max_int in Hout.
    destruct (decide (lands cfg < 0)); [lia|].
    destruct (decide (combos cfg < 0)); [lia|].
    right. right. right. right. right. left. int_range.
Qed.

(** A configuration that meets a failure condition is turned down,
    provided the sum of lands and combo pieces is an [int]. *)
Lemma validateConfig_invalid_error (cfg : Config) :
  GoInt.in_int (lands cfg + combos cfg) ->
  invalid cfg -> is_Some (validateConfig cfg).
Proof.
  intros Hin Hinv.
  destruct (validateConfig cfg) as [e|] eqn:Hv; [by eexists|].
  apply validateConfig_None in Hv.
  rewrite GoIntFacts.add_no_wrap in Hv by exact Hin.
  unfold invalid in Hinv. lia.
Qed.

(** The three rejections the specification singles out, where the sum of
    lands and combo pieces is an [int]. *)
Lemma validateConfig_rejections (cfg : Config) :
  (required cfg = 0 -> is_Some (validateConfig cfg)) /\
  (runs cfg = 0 -> is_Some (validateConfig cfg)) /\
  (GoInt.in_int (lands cfg + combos cfg) ->
   lands cfg + combos cfg > deckSize cfg -> is_Some (validateConfig cfg)).
Proof.
  split; [|split].
  - intros Hreq. destruct (validateConfig cfg) eqn:Hv; [by eexists|].
    apply validateConfig_None in Hv. lia.
  - intros Hruns. destruct (validateConfig cfg) eqn:Hv; [by eexists|].
    apply validateConfig_None in Hv. lia.
  - intros Hin Hover. apply validateConfig_invalid_error; [exact Hin|].
    unfold invalid. lia.
Qed.

(** C4. [validateConfig] returns no error on [overflowConfig], although
    its lands and combo pieces exceed the deck size: the sum
    [lands + combos] wraps around to [math.MinInt64] before it is
    compared with [deckSize]. *)
Theorem validateConfig_accepts_overcommitted_deck :
  wf_Config overflowConfig /\
  lands overflowConfig + combos overflowConfig > deckSize overflowConfig /\
  invalid overflowConfig /\
  GoInt.add (lands overflowConfig) (combos overflowConfig) = GoInt.min_int /\
  validateConfig overflowConfig = None.
Proof.
  split; [unfold overflowConfig; int_range|].
  split; [cbn; lia|].
  split; [unfold invalid; cbn; lia|].
  split; vm_compute; reflexivity.
Qed.

(** ** [simSeed] against the mixing function of the specification *)

Module SplitMixFacts.
Import SplitMix.

Lemma log2_lt_64 a : 0 <= a < 2 ^ 64 -> Z.log2 a < 64.
Proof.
  intros [H0 H1]. destruct (decide (a = 0)) as [->|Hne]; [done|].
  apply Z.log2_lt_pow2; lia.
Qed.

Lemma lxor_uint64 a b :
  0 <= a < 2 ^ 64 -> 0 <= b < 2 ^ 64 -> 0 <= Z.lxor a b < 2 ^ 64.
Proof.
  intros Ha Hb.
  assert (H0 : 0 <= Z.lxor a b) by (apply Z.lxor_nonneg; lia).
  split; [exact H0|].
  destruct (decide (Z.lxor a b = 0)) as [->|Hne]; [done|].
  apply Z.log2_lt_pow2; [lia|].
  pose proof (Z.log2_lxor a b (proj1 Ha) (proj1 Hb)).
  pose proof (log2_lt_64 a Ha). pose proof (log2_lt_64 b Hb). lia.
Qed.

Lemma xor_shift_uint64 k x :
  0 <= k -> 0 <= x < 2 ^ 64 -> 0 <= xor_shift k x < 2 ^ 64.
Proof.
  intros Hk Hx. unfold xor_shift. apply lxor_uint64; [exact Hx|].
  assert (0 < 2 ^ k) by (apply Z.pow_pos_nonneg; lia).
  split; [apply Z.div_pos; lia|].
  apply Z.le_lt_trans with x; [|lia].
  apply Z.div_le_upper_bound; nia.
Qed.

Lemma mul_odd_uint64 c x : 0 <= mul_odd c x < 2 ^ 64.
Proof. unfold mul_odd. apply Z.mod_pos_bound. lia. Qed.

Lemma mix_uint64 b i : 0 <= mix b i < 2 ^ 64.
Proof.
  unfold mix. apply xor_shift_uint64; [lia|]. apply mul_odd_uint64.
Qed.

(** The two conversions to [uint64] before the addition change
    nothing modulo [2^64]. *)
Lemma seed_sum b i :
  GoInt.to_uint64 (GoInt.to_uint64 (GoInt.to_uint64 b + GoInt.to_uint64 i) + golden)
  = (b + i + golden) mod 2 ^ 64.
Proof.
  unfold GoInt.to_uint64.
  rewrite <- (Zplus_mod b i), Zplus_mod_idemp_l. reflexivity.
Qed.

End SplitMixFacts.

(** C8. Seed derivation: [simSeed] is the splitmix mixing function of
    the specification, computed modulo [2^64] and read back as an
    [int64]: the sum [base_seed + trial_index] plus an odd constant,
    then two xor-shift and multiply-by-odd-constant steps and a last
    xor-shift.  Its value is an [int64] fixed by its two arguments. *)
Theorem simSeed_is_splitmix :
  (forall baseSeed simIndex : Z,
     simSeed baseSeed simIndex = GoInt.to_int64 (SplitMix.mix baseSeed simIndex)) /\
  (forall baseSeed simIndex : Z, 0 <= SplitMix.mix baseSeed simIndex < 2 ^ 64) /\
  (forall baseSeed simIndex : Z, GoInt.in_int (simSeed baseSeed simIndex)) /\
  (Z.odd SplitMix.golden = true /\ Z.odd SplitMix.mult1 = true /\
   Z.odd SplitMix.mult2 = true) /\
  (forall b1 i1 b2 i2 : Z, b1 = b2 -> i1 = i2 -> simSeed b1 i1 = simSeed b2 i2).
Proof.
  split; [|split; [|split; [|split]]].
  - intros b i. unfold simSeed.
    change 0x9e3779b97f4a7c15 with SplitMix.golden.
    rewrite SplitMixFacts.seed_sum.
    unfold SplitMix.mix, SplitMix.xor_shift, SplitMix.mul_odd, GoInt.to_uint64.
    rewrite !Z.shiftr_div_pow2 by lia. reflexivity.
  - exact SplitMixFacts.mix_uint64.
  - intros b i. unfold simSeed. apply GoIntFacts.to_int64_in_int.
  - split; [|split]; vm_compute; reflexivity.
  - intros b1 i1 b2 i2 -> ->. reflexivity.
Qed.

Lemma simSeed_is_splitmix_witness :
  simSeed 42 0 = GoInt.to_int64 (SplitMix.mix 42 0) /\
  (42 = 42 -> 0 = 0 -> simSeed 42 0 = simSeed 42 0).
Proof.
  split.
  - exact (proj1 simSeed_is_splitmix 42 0).
  - exact (proj2 (proj2 (proj2 (proj2 simSeed_is_splitmix))) 42 0 42 0).
Defined.

(** ** The worker pool *)

Lemma aggregate_comm (a : Aggregate) (x y : Simulation) :
  aggregate (aggregate a x) y = aggregate (aggregate a y) x.
Proof.
  unfold aggregate. cbn [results drawSum landSum openingWinCount attempts
    averageDrawsToWin openingHandWins averageOpeningHandWins averageOpeningLands].
  f_equal.
  - apply GoIntFacts.add_add_comm.
  - apply GoIntFacts.add_add_comm.
  - destruct (openingHandWin x), (openingHandWin y); reflexivity.
Qed.

(** The order in which results are aggregated does not matter. *)
Lemma foldl_aggregate_perm (l1 l2 : list Simulation) :
  l1 ≡ₚ l2 -> forall a, foldl aggregate a l1 = foldl aggregate a l2.
Proof.
  induction 1 as [|x l1 l2 _ IH|x y l|l1 l2 l3 _ IH12 _ IH23]; intros a; cbn [foldl].
  - reflexivity.
  - apply IH.
  - by rewrite aggregate_comm.
  - by rewrite IH12.
Qed.

Lemma held_receive (ws : list (option Simulation)) : forall (w : nat) (sim : Simulation),
  ws !! w = Some None -> held (<[w := Some sim]> ws) ≡ₚ sim :: held ws.
Proof.
  unfold held. induction ws as [|o ws IH]; intros [|w] sim Hw; try discriminate.
  - cbn in Hw. injection Hw as ->. reflexivity.
  - cbn [lookup list_lookup] in Hw. cbn [insert list_insert omap list_omap].
    destruct o as [x|]; cbn [id].
    + rewrite (IH w sim Hw). apply Permutation_swap.
    + apply (IH w sim Hw).
Qed.

Lemma held_send (ws : list (option Simulation)) : forall (w : nat) (sim : Simulation),
  ws !! w = Some (Some sim) -> sim :: held (<[w := None]> ws) ≡ₚ held ws.
Proof.
  unfold held. induction ws as [|o ws IH]; intros [|w] sim Hw; try discriminate.
  - cbn in Hw. injection Hw as ->. reflexivity.
  - cbn [lookup list_lookup] in Hw. cbn [insert list_insert omap list_omap].
    destruct o as [x|]; cbn [id].
    + rewrite Permutation_swap. by rewrite (IH w sim Hw).
    + apply (IH w sim Hw).
Qed.

Lemma held_idle (ws : list (option Simulation)) :
  forallb idle ws = true -> held ws = [].
Proof.
  unfold held. induction ws as [|[x|] ws IH]; cbn; [done|discriminate|exact IH].
Qed.

Section Pool.

Context {Rand : Type} {RS : RandSource Rand}.
Variable cfg : Config.
Hypothesis cfg_wf : wf_Config cfg.

Lemma initPool_inv (w : nat) : pool_inv cfg (initPool w).
Proof.
  exists []. cbn. split; [reflexivity|]. split; [lia|].
  unfold held. induction w as [|w IH]; [reflexivity|exact IH].
Qed.

Lemma step_inv (a : action) (s s' : Pool) :
  step cfg a s = Some s' -> pool_inv cfg s -> pool_inv cfg s'.
Proof.
  intros Hstep (done & Hagg & Hnext & Hperm). destruct a as [|w|w|]; cbn [step] in Hstep.
  - case_decide as Hen; [|discriminate]. injection Hstep as <-.
    destruct Hen as [Hlt _].
    assert (Hadd : GoInt.add (nextJob s) 1 = nextJob s + 1).
    { apply GoIntFacts.add_no_wrap. int_range. }
    exists done. cbn [agg nextJob jobs workers output]. rewrite Hadd.
    split; [exact Hagg|]. split; [lia|].
    rewrite seqZ_app by lia. rewrite !omap_app, !app_assoc.
    apply Permutation_app; [by rewrite <- !app_assoc|].
    rewrite Z.add_0_l. reflexivity.
  - destruct (workers s !! w) as [[sim0|]|] eqn:Hw; try discriminate.
    destruct (jobs s) as [|simIndex rest] eqn:Hjobs; [discriminate|].
    destruct (runTrial cfg simIndex) as [sim|] eqn:Htrial; [|discriminate].
    cbn [mbind option_bind] in Hstep. injection Hstep as <-.
    exists done. cbn [agg nextJob jobs workers output].
    split; [exact Hagg|]. split; [exact Hnext|].
    rewrite <- Hperm, (held_receive _ _ sim Hw).
    cbn [omap list_omap]. rewrite Htrial.
    apply Permutation_app_head, Permutation_app_head.
    apply (Permutation_middle (held (workers s)) _ sim).
  - destruct (workers s !! w) as [[sim|]|] eqn:Hw; try discriminate.
    case_decide as Hcap; [|discriminate]. injection Hstep as <-.
    exists done. cbn [agg nextJob jobs workers output].
    split; [exact Hagg|]. split; [exact Hnext|].
    rewrite <- Hperm, <- (held_send _ _ sim Hw).
    apply Permutation_app_head. rewrite <- app_assoc.
    apply Permutation_app_head. reflexivity.
  - destruct (output s) as [|sim rest] eqn:Hout; [discriminate|].
    injection Hstep as <-.
    exists (done ++ [sim]). cbn [agg nextJob jobs workers output].
    split; [by rewrite foldl_snoc, Hagg|]. split; [exact Hnext|].
    rewrite <- Hperm, <- app_assoc. reflexivity.
Qed.

Lemma exec_inv (sched : list action) : forall s s',
  exec cfg sched s = Some s' -> pool_inv cfg s -> pool_inv cfg s'.
Proof.
  induction sched as [|a rest IH]; intros s s' Hexec Hinv; cbn [exec] in Hexec.
  - by injection Hexec as <-.
  - destruct (step cfg a s) as [s1|] eqn:Hstep; [|discriminate].
    cbn [mbind option_bind] in Hexec.
    eapply IH; [exact Hexec|]. eapply step_inv; [exact Hstep|exact Hinv].
Qed.

(** When the pool has finished, the consuming loop has aggregated the
    result of every trial exactly once. *)
Lemma finished_agg (s : Pool) :
  pool_inv cfg s -> finished cfg s = true ->
  agg s = foldl aggregate emptyAggregate (trialResults cfg).
Proof.
  intros (done & Hagg & Hnext & Hperm) Hfin. unfold finished in Hfin.
  apply andb_true_iff in Hfin as [Hfin Hout].
  apply andb_true_iff in Hfin as [Hfin Hidle].
  apply andb_true_iff in Hfin as [Hstop Hjobs].
  apply bool_decide_eq_true in Hstop.
  destruct (jobs s); [|discriminate]. destruct (output s); [|discriminate].
  rewrite (held_idle _ Hidle) in Hperm. cbn in Hperm. rewrite app_nil_r in Hperm.
  rewrite Hagg. apply foldl_aggregate_perm. rewrite Hperm. unfold trialResults.
  destruct (decide (runs cfg <= 0)) as [Hle|Hgt].
  - rewrite !seqZ_nil by lia. reflexivity.
  - by replace (nextJob s) with (runs cfg) by lia.
Qed.

(** Every complete run ends with the aggregate of the trial results
    taken in the order of their indices. *)
Lemma runPool_complete (w : nat) (sched : list action) (a : Aggregate) :
  runPool cfg w sched = Some a ->
  a = foldl aggregate emptyAggregate (trialResults cfg).
Proof.
  unfold runPool. intros Hrun.
  destruct (exec cfg sched (initPool w)) as [s|] eqn:Hexec; [|discriminate].
  cbn [mbind option_bind] in Hrun.
  destruct (finished cfg s) eqn:Hfin; [|discriminate]. injection Hrun as <-.
  apply finished_agg; [|exact Hfin].
  eapply exec_inv; [exact Hexec|apply initPool_inv].
Qed.

End Pool.

Lemma exec_app {Rand : Type} {RS : RandSource Rand} (cfg : Config)
    (sched1 sched2 : list action) : forall s,
  exec cfg (sched1 ++ sched2) s = exec cfg sched1 s ≫= exec cfg sched2.
Proof.
  induction sched1 as [|a rest IH]; intros s; cbn [exec app].
  - reflexivity.
  - destruct (step cfg a s) as [s1|]; cbn [mbind option_bind]; [apply IH|reflexivity].
Qed.

Section CompleteRun.

Context {Rand : Type} {RS : RandSource Rand}.
Variable cfg : Config.
Hypothesis cfg_wf : wf_Config cfg.
Hypothesis cfg_valid : validateConfig cfg = None.

(** No trial of an accepted configuration panics. *)
Lemma runTrial_total (simIndex : Z) : is_Some (runTrial cfg simIndex).
Proof.
  unfold runTrial.
  destruct (createDeck_length cfg (NewRand (simSeed (seed cfg) simIndex))
              cfg_wf cfg_valid) as (deck & -> & H7 & _).
  cbn [mbind option_bind]. by apply runSimulation_safe_iff.
Qed.

(** One trial handled from end to end by worker 0 of an idle pool. *)
Lemma round_exec (w : nat) (n : Z) (a : Aggregate) (sim : Simulation) :
  (1 <= w)%nat -> 0 <= n < runs cfg -> runTrial cfg n = Some sim ->
  exec cfg [Produce; Receive 0; Send 0; Consume]
       (mkPool n [] (replicate w None) [] a)
  = Some (mkPool (n + 1) [] (replicate w None) [] (aggregate a sim)).
Proof.
  intros Hw Hn Htrial. destruct w as [|w]; [lia|].
  pool_cbn. rewrite decide_True by (cbn [length]; lia).
  pool_cbn. rewrite Htrial.
  pool_cbn. rewrite decide_True by (cbn [length]; unfold outputCap; lia).
  pool_cbn. rewrite GoIntFacts.add_no_wrap by int_range.
  reflexivity.
Qed.

Lemma oneByOne_exec (w : nat) : forall (k : nat) (n : Z) (a : Aggregate),
  (1 <= w)%nat -> 0 <= n -> n + Z.of_nat k <= runs cfg ->
  exists a',
    exec cfg (oneByOne k) (mkPool n [] (replicate w None) [] a)
    = Some (mkPool (n + Z.of_nat k) [] (replicate w None) [] a').
Proof.
  induction k as [|k IH]; intros n a Hw Hn Hk.
  - exists a. cbn. by rewrite Z.add_0_r.
  - destruct (runTrial_total n) as [sim Htrial].
    change (oneByOne (S k))
      with ([Produce; Receive 0; Send 0; Consume] ++ oneByOne k).
    rewrite exec_app, (round_exec w n a sim) by (done || lia).
    cbn [mbind option_bind].
    destruct (IH (n + 1) (aggregate a sim)) as [a' Ha']; [done|lia|lia|].
    exists a'. rewrite Ha'. do 2 f_equal. lia.
Qed.

(** The one-by-one schedule is a complete run, for any pool of at least
    one worker. *)
Lemma runPool_oneByOne (w : nat) :
  (1 <= w)%nat -> is_Some (runPool cfg w (oneByOne (Z.to_nat (runs cfg)))).
Proof.
  intros Hw. apply validateConfig_None in cfg_valid as Hv.
  destruct (oneByOne_exec w (Z.to_nat (runs cfg)) 0 emptyAggregate)
    as [a Ha]; [done|lia|lia|].
  unfold runPool, initPool. rewrite Ha. cbn [mbind option_bind].
  unfold finished. cbn [nextJob jobs workers output].
  rewrite bool_decide_eq_true_2 by lia. cbn [andb].
  replace (forallb idle (replicate w None)) with true; [by eexists|].
  clear. induction w as [|w IH]; [reflexivity|exact IH].
Qed.

End CompleteRun.

(** A valid configuration passes [validateConfig]. *)
Lemma valid_validateConfig (cfg : Config) : valid cfg -> validateConfig cfg = None.
Proof.
  intros [Hwf Hok].
  destruct (validateConfig cfg) as [e|] eqn:Hv; [|reflexivity].
  destruct Hok. apply validateConfig_error_invalid; [exact Hwf|].
  rewrite Hv. by eexists.
Qed.

(** C1. Determinism of a full run: for a valid configuration, a pool of
    any positive number of workers has a complete run, and any two
    complete runs, whatever their numbers of workers and their
    schedules, end with the same attempts count, the same opening-hand
    win count, the same draw and land sums, and return the same results,
    means included: those of the trials aggregated in the order of their
    indices. *)
Theorem runScenario_deterministic {Rand : Type} {RS : RandSource Rand} (cfg : Config) :
  valid cfg ->
  (forall w : nat, (1 <= w)%nat ->
     exists (sched : list action) (r : Results), runScenario cfg w sched = Some r) /\
  (forall (w1 w2 : nat) (sched1 sched2 : list action) (a1 a2 : Aggregate),
     runPool cfg w1 sched1 = Some a1 ->
     runPool cfg w2 sched2 = Some a2 ->
     a1 = a2 /\
     runScenario cfg w1 sched1 = runScenario cfg w2 sched2 /\
     runScenario cfg w1 sched1 = Some (scenarioResults cfg)).
Proof.
  intros Hvalid. pose proof (valid_validateConfig cfg Hvalid) as Hpass.
  destruct Hvalid as [Hwf _]. split.
  - intros w Hw.
    destruct (runPool_oneByOne cfg Hwf Hpass w Hw) as [a Ha].
    exists (oneByOne (Z.to_nat (runs cfg))), (finish a).
    unfold runScenario. by rewrite Ha.
  - intros w1 w2 sched1 sched2 a1 a2 H1 H2.
    pose proof (runPool_complete cfg Hwf w1 sched1 a1 H1) as E1.
    pose proof (runPool_complete cfg Hwf w2 sched2 a2 H2) as E2.
    split; [congruence|].
    unfold runScenario, scenarioResults. rewrite H1, H2, E1, E2. by split.
Qed.

Lemma runScenario_deterministic_witness :
  valid smallConfig /\
  runPool (RS := FisherYates_rand) smallConfig 1 (oneByOne 3) = Some smallAggregate /\
  runPool (RS := FisherYates_rand) smallConfig 2 interleaved = Some smallAggregate /\
  smallAggregate = smallAggregate /\
  runScenario (RS := FisherYates_rand) smallConfig 1 (oneByOne 3)
    = runScenario (RS := FisherYates_rand) smallConfig 2 interleaved /\
  runScenario (RS := FisherYates_rand) smallConfig 1 (oneByOne 3)
    = Some (scenarioResults (RS := FisherYates_rand) smallConfig).
Proof.
  assert (Hvalid : valid smallConfig).
  { split; [unfold smallConfig; int_range|]. unfold invalid. cbn. lia. }
  assert (H1 : runPool (RS := FisherYates_rand) smallConfig 1 (oneByOne 3)
               = Some smallAggregate) by (vm_compute; reflexivity).
  assert (H2 : runPool (RS := FisherYates_rand) smallConfig 2 interleaved
               = Some smallAggregate) by (vm_compute; reflexivity).
  split; [exact Hvalid|]. split; [exact H1|]. split; [exact H2|].
  exact (proj2 (runScenario_deterministic (RS := FisherYates_rand) smallConfig Hvalid)
           1%nat 2%nat (oneByOne 3) interleaved smallAggregate smallAggregate H1 H2).
Defined.

(** ** Every trial is counted once *)

Lemma finish_attempts (a : Aggregate) : attempts (finish a) = attempts (results a).
Proof. unfold finish. by destruct (attempts (results a) >? 0). Qed.

Lemma foldl_aggregate_attempts (l : list Simulation) : forall a : Aggregate,
  GoInt.in_int (attempts (results a)) ->
  attempts (results (foldl aggregate a l))
  = GoInt.to_int64 (attempts (results a) + Z.of_nat (length l)).
Proof.
  induction l as [|x l IH]; intros a Ha; cbn [foldl length].
  - rewrite Z.add_0_r. symmetry. by apply GoIntFacts.to_int64_id.
  - rewrite IH by apply GoIntFacts.to_int64_in_int.
    cbn [aggregate results attempts].
    change (GoInt.to_int64 (GoInt.add (attempts (results a)) 1 + Z.of_nat (length l)))
      with (GoInt.add (GoInt.to_int64 (attempts (results a) + 1)) (Z.of_nat (length l))).
    rewrite GoIntFacts.add_to_int64_l. f_equal. lia.
Qed.

Lemma length_omap_total {A B : Type} (f : A -> option B) (l : list A) :
  (forall x, is_Some (f x)) -> length (omap f l) = length l.
Proof.
  intros Hf. induction l as [|x l IH]; [reflexivity|].
  cbn [omap list_omap]. destruct (Hf x) as [y ->]. cbn [length]. by rewrite IH.
Qed.

(** The attempts count returned for an accepted configuration is its
    number of runs. *)
Lemma scenarioResults_attempts {Rand : Type} {RS : RandSource Rand} (cfg : Config) :
  wf_Config cfg -> validateConfig cfg = None ->
  attempts (scenarioResults cfg) = runs cfg.
Proof.
  intros Hwf Hvalid. unfold scenarioResults. rewrite finish_attempts.
  pose proof (proj1 (validateConfig_None cfg) Hvalid) as Hv.
  assert (Hlen : length (trialResults cfg) = Z.to_nat (runs cfg)).
  { unfold trialResults. rewrite length_omap_total, length_seqZ; [done|].
    intros i. by apply runTrial_total. }
  rewrite foldl_aggregate_attempts, Hlen by (cbn; int_range).
  cbn [emptyAggregate results attempts].
  rewrite GoIntFacts.to_int64_id by int_range. lia.
Qed.

(** * Further properties of the code *)

(** ** [checkComboWin] *)

(** The win check in one line: it passes exactly when the requirement is
    at least one and at most the number of combo pieces in the hand. *)
Theorem checkComboWin_iff (hand : list Card) (required : Z) :
  go_len hand ->
  checkComboWin hand required = true <->
  1 <= required <= Z.of_nat (comboCount hand).
Proof.
  intros Hlen. rewrite checkComboWin_spec by exact Hlen.
  rewrite bool_decide_eq_true. lia.
Qed.

Lemma checkComboWin_iff_witness :
  go_len sampleDeck /\
  (checkComboWin sampleDeck 2 = true <->
   1 <= 2 <= Z.of_nat (comboCount sampleDeck)).
Proof.
  assert (Hlen : go_len sampleDeck) by (vm_compute; discriminate).
  split; [exact Hlen|]. exact (checkComboWin_iff sampleDeck 2 Hlen).
Defined.

Lemma comboCount_perm (l1 l2 : list Card) :
  l1 ≡ₚ l2 -> comboCount l1 = comboCount l2.
Proof. intros H. unfold comboCount. by rewrite H. Qed.

(** The order of the cards in hand does not matter to the win check. *)
Theorem checkComboWin_order_irrelevant (hand1 hand2 : list Card) (required : Z) :
  go_len hand1 -> hand1 ≡ₚ hand2 ->
  checkComboWin hand1 required = checkComboWin hand2 required.
Proof.
  intros Hlen Hperm.
  assert (Hlen2 : go_len hand2) by (unfold go_len in *; by rewrite <- Hperm).
  rewrite !checkComboWin_spec by done.
  by rewrite (comboCount_perm _ _ Hperm).
Qed.

Lemma checkComboWin_order_irrelevant_witness :
  go_len sampleDeck /\ sampleDeck ≡ₚ rotatedDeck /\
  sampleDeck <> rotatedDeck /\
  checkComboWin sampleDeck 2 = checkComboWin rotatedDeck 2.
Proof.
  assert (Hlen : go_len sampleDeck) by (vm_compute; discriminate).
  assert (Hperm : sampleDeck ≡ₚ rotatedDeck)
    by (exact (Permutation_cons_append (tail sampleDeck) landCard)).
  split; [exact Hlen|]. split; [exact Hperm|]. split; [discriminate|].
  exact (checkComboWin_order_irrelevant sampleDeck rotatedDeck 2 Hlen Hperm).
Defined.

(** A hand that passes the win check still passes it after more cards
    are added, and passes it for every smaller positive requirement. *)
Theorem checkComboWin_monotone (hand more : list Card) (required required' : Z) :
  go_len (hand ++ more) ->
  1 <= required' <= required ->
  checkComboWin hand required = true ->
  checkComboWin (hand ++ more) required' = true.
Proof.
  intros Hlen Hreq Hwin.
  assert (Hlen1 : go_len hand).
  { unfold go_len in *. rewrite length_app in Hlen. lia. }
  rewrite checkComboWin_spec in Hwin by exact Hlen1.
  apply bool_decide_eq_true in Hwin.
  rewrite checkComboWin_spec by exact Hlen.
  apply bool_decide_eq_true. rewrite comboCount_app. lia.
Qed.

Lemma checkComboWin_monotone_witness :
  go_len (sampleDeck ++ [landCard]) /\ 1 <= 1 <= 2 /\
  checkComboWin sampleDeck 2 = true /\
  checkComboWin (sampleDeck ++ [landCard]) 1 = true.
Proof.
  assert (Hlen : go_len (sampleDeck ++ [landCard])) by (vm_compute; discriminate).
  assert (Hreq : 1 <= 1 <= 2) by lia.
  assert (Hwin : checkComboWin sampleDeck 2 = true) by (vm_compute; reflexivity).
  split; [exact Hlen|]. split; [exact Hreq|]. split; [exact Hwin|].
  exact (checkComboWin_monotone sampleDeck [landCard] 2 1 Hlen Hreq Hwin).
Defined.

(** ** [runSimulation]: the opening hand *)

Lemma drawLoop_fields (required openingLands : Z) :
  forall (n off : nat) (mem : list Card) (h : nat) (drawCount : Z) (sim : Simulation),
    drawLoop required openingLands n off mem h drawCount = Some sim ->
    openingHandWin sim = false /\ openingHandLands sim = openingLands.
Proof.
  induction n as [|n IH]; intros off mem h drawCount sim Hrun; cbn [drawLoop] in Hrun.
  - injection Hrun as <-. by split.
  - destruct (mem !! off) as [drawn|]; [|discriminate].
    cbn [mbind option_bind] in Hrun.
    destruct (append_hand mem h drawn) as [[mem' h']|]; [|discriminate].
    cbn [mbind option_bind] in Hrun.
    destruct (checkComboWin (take h' mem') required).
    + injection Hrun as <-. by split.
    + by apply IH in Hrun.
Qed.

Lemma runSimulation_fields (deck : list Card) (required : Z) (sim : Simulation) :
  runSimulation deck required = Some sim ->
  (7 <= length deck)%nat /\
  openingHandWin sim = winAt deck required 7 /\
  openingHandLands sim = countLands 0 (take 7 deck) /\
  (openingHandWin sim = true -> drawsToWinCon sim = 0).
Proof.
  intros Hrun.
  assert (H7 : (7 <= length deck)%nat).
  { apply (runSimulation_safe_iff deck required). rewrite Hrun. by eexists. }
  split; [exact H7|].
  unfold runSimulation in Hrun. rewrite decide_True in Hrun by exact H7.
  fold (winAt deck required 7) in Hrun.
  destruct (winAt deck required 7).
  - injection Hrun as <-. by repeat split.
  - apply drawLoop_fields in Hrun as [-> ->]. by repeat split.
Qed.

(** The lands reported for the opening hand are the land cards among the
    first seven cards of the deck: a number from 0 to 7. *)
Theorem opening_lands_counted (deck : list Card) (required : Z) (sim : Simulation) :
  runSimulation deck required = Some sim ->
  openingHandLands sim = Z.of_nat (landCount (take 7 deck)) /\
  0 <= openingHandLands sim <= 7.
Proof.
  intros Hrun. apply runSimulation_fields in Hrun as (H7 & _ & -> & _).
  assert (Hlen : length (take 7 deck) = 7%nat) by (rewrite length_take; lia).
  rewrite countLands_spec by (rewrite ?Hlen; unfold GoInt.max_int; lia).
  split; [lia|].
  assert (landCount (take 7 deck) <= 7)%nat; [|lia].
  unfold landCount. rewrite <- Hlen at 2. apply length_filter.
Qed.

Lemma opening_lands_counted_witness :
  runSimulation sampleDeck 2 = Some (mkSimulation 2 false 1) /\
  1 = Z.of_nat (landCount (take 7 sampleDeck)) /\ 0 <= 1 <= 7.
Proof.
  assert (Hrun : runSimulation sampleDeck 2 = Some (mkSimulation 2 false 1))
    by (vm_compute; reflexivity).
  split; [exact Hrun|].
  exact (opening_lands_counted sampleDeck 2 _ Hrun).
Defined.

(** The opening-hand flag is set exactly when the first seven cards hold
    enough combo pieces for a requirement of at least one, and a trial
    with the flag set has drawn nothing. *)
Theorem opening_win_flag_iff (deck : list Card) (required : Z) (sim : Simulation) :
  runSimulation deck required = Some sim ->
  (openingHandWin sim = true <->
   1 <= required <= Z.of_nat (comboCount (take 7 deck))) /\
  (openingHandWin sim = true -> drawsToWinCon sim = 0).
Proof.
  intros Hrun. apply runSimulation_fields in Hrun as (_ & -> & _ & Hzero).
  split; [|exact Hzero].
  rewrite winAt_7_spec, bool_decide_eq_true. lia.
Qed.

Lemma opening_win_flag_iff_witness :
  runSimulation sampleDeck 1 = Some (mkSimulation 0 true 1) /\
  (true = true <-> 1 <= 1 <= Z.of_nat (comboCount (take 7 sampleDeck))) /\
  (true = true -> 0 = 0).
Proof.
  assert (Hrun : runSimulation sampleDeck 1 = Some (mkSimulation 0 true 1))
    by (vm_compute; reflexivity).
  split; [exact Hrun|].
  exact (opening_win_flag_iff sampleDeck 1 _ Hrun).
Defined.

(** A trial reports zero draws in two cases only: the opening hand won,
    or the deck has exactly seven cards and so no library to draw. *)
Theorem zero_draws_iff (deck : list Card) (required : Z) (sim : Simulation) :
  go_len deck ->
  runSimulation deck required = Some sim ->
  drawsToWinCon sim = 0 <->
  openingHandWin sim = true \/ length deck = 7%nat.
Proof.
  intros Hlen Hrun.
  pose proof (runSimulation_fields _ _ _ Hrun) as (H7 & Hflag & _ & Hzero).
  destruct (runSimulation_spec deck required H7 Hlen)
    as (d & Hrun' & Hd & Hbefore & Hstop).
  rewrite Hrun in Hrun'. injection Hrun' as ->.
  cbn [drawsToWinCon openingHandWin] in *. split.
  - intros Hd0. assert (d = 0%nat) as -> by lia.
    destruct Hstop as [Hw|[Hend _]]; [by left|right; lia].
  - intros [Hw|Hseven]; [|lia].
    destruct (decide (d = 0%nat)) as [->|Hne]; [done|].
    rewrite Hbefore in Hw by lia. discriminate.
Qed.

Lemma zero_draws_iff_witness :
  go_len (take 7 sampleDeck) /\
  runSimulation (take 7 sampleDeck) 2 = Some (mkSimulation 0 false 1) /\
  (0 = 0 <-> false = true \/ length (take 7 sampleDeck) = 7%nat).
Proof.
  assert (Hlen : go_len (take 7 sampleDeck)) by (vm_compute; discriminate).
  assert (Hrun : runSimulation (take 7 sampleDeck) 2 = Some (mkSimulation 0 false 1))
    by (vm_compute; reflexivity).
  split; [exact Hlen|]. split; [exact Hrun|].
  exact (zero_draws_iff (take 7 sampleDeck) 2 _ Hlen Hrun).
Defined.

(** ** [runSimulation]: where a trial stops *)

(** The draw count is the one number [d] with these properties. *)
Lemma stop_unique (deck : list Card) (required : Z) (d1 d2 : nat) :
  (7 + d1 <= length deck)%nat -> (7 + d2 <= length deck)%nat ->
  (forall k, (7 <= k < 7 + d1)%nat -> winAt deck required k = false) ->
  (forall k, (7 <= k < 7 + d2)%nat -> winAt deck required k = false) ->
  winAt deck required (7 + d1) = true \/ (7 + d1)%nat = length deck ->
  winAt deck required (7 + d2) = true \/ (7 + d2)%nat = length deck ->
  d1 = d2.
Proof.
  intros Hd1 Hd2 Hb1 Hb2 Hs1 Hs2.
  destruct (Nat.lt_trichotomy d1 d2) as [Hlt|[Heq|Hgt]]; [|done|].
  - destruct Hs1 as [Hw|Hend]; [|lia]. rewrite Hb2 in Hw by lia. discriminate.
  - destruct Hs2 as [Hw|Hend]; [|lia]. rewrite Hb1 in Hw by lia. discriminate.
Qed.

Lemma runSimulation_stop (deck : list Card) (required : Z) (sim : Simulation) :
  go_len deck -> runSimulation deck required = Some sim ->
  exists d : nat,
    sim = mkSimulation (Z.of_nat d) (winAt deck required 7) (countLands 0 (take 7 deck)) /\
    (7 + d <= length deck)%nat /\
    (forall k, (7 <= k < 7 + d)%nat -> winAt deck required k = false) /\
    (winAt deck required (7 + d) = true \/ (7 + d)%nat = length deck).
Proof.
  intros Hlen Hrun.
  pose proof (runSimulation_fields _ _ _ Hrun) as (H7 & _).
  destruct (runSimulation_spec deck required H7 Hlen)
    as (d & Hrun' & Hd & Hbefore & Hstop).
  rewrite Hrun in Hrun'. injection Hrun' as ->.
  exists d. split; [done|]. split; [done|]. split; [done|].
  destruct Hstop as [Hw|[Hend _]]; [by left|by right].
Qed.

Lemma comboCount_take_S (deck : list Card) (i : nat) (c : Card) :
  deck !! i = Some c ->
  comboCount (take (S i) deck)
  = (comboCount (take i deck) + if combo c then 1 else 0)%nat.
Proof.
  intros Hc. rewrite (take_S_r _ _ _ Hc), comboCount_app, comboCount_cons.
  change (comboCount []) with 0%nat. destruct (combo c); lia.
Qed.

(** A trial that wins after at least one draw wins on a combo piece: the
    last card drawn is one, and the hand before that draw was exactly
    one piece short of the requirement. *)
Theorem winning_draw_is_combo (deck : list Card) (required : Z) (sim : Simulation) :
  go_len deck ->
  runSimulation deck required = Some sim ->
  wins deck required sim ->
  0 < drawsToWinCon sim ->
  exists c : Card,
    deck !! (6 + Z.to_nat (drawsToWinCon sim))%nat = Some c /\
    combo c = true /\
    Z.of_nat (comboCount (take (6 + Z.to_nat (drawsToWinCon sim)) deck))
      = required - 1.
Proof.
  intros Hlen Hrun Hwins Hpos.
  destruct (runSimulation_stop deck required sim Hlen Hrun)
    as (d & -> & Hd & Hbefore & _).
  unfold wins, handAtReturn in Hwins. cbn [drawsToWinCon] in *.
  rewrite Nat2Z.id in *. fold (winAt deck required (7 + d)) in Hwins.
  destruct d as [|d]; [lia|].
  replace (6 + S d)%nat with (7 + d)%nat by lia.
  replace (7 + S d)%nat with (S (7 + d)) in * by lia.
  destruct (lookup_lt_is_Some_2 deck (7 + d)) as [c Hc]; [lia|].
  exists c. split; [exact Hc|].
  rewrite winAt_spec in Hwins by done. apply bool_decide_eq_true in Hwins.
  pose proof (Hbefore (7 + d)%nat) as Hshort.
  rewrite winAt_spec in Hshort by done.
  specialize (Hshort ltac:(lia)). apply bool_decide_eq_false in Hshort.
  rewrite (comboCount_take_S _ _ _ Hc) in Hwins.
  destruct (combo c); [split; [done|lia]|lia].
Qed.

Lemma winning_draw_is_combo_witness :
  go_len sampleDeck /\
  runSimulation sampleDeck 2 = Some (mkSimulation 2 false 1) /\
  wins sampleDeck 2 (mkSimulation 2 false 1) /\ 0 < 2 /\
  exists c : Card,
    sampleDeck !! (6 + Z.to_nat 2)%nat = Some c /\ combo c = true /\
    Z.of_nat (comboCount (take (6 + Z.to_nat 2) sampleDeck)) = 2 - 1.
Proof.
  assert (Hlen : go_len sampleDeck) by (vm_compute; discriminate).
  assert (Hrun : runSimulation sampleDeck 2 = Some (mkSimulation 2 false 1))
    by (vm_compute; reflexivity).
  assert (Hwins : wins sampleDeck 2 (mkSimulation 2 false 1))
    by (vm_compute; reflexivity).
  assert (Hpos : 0 < 2) by lia.
  split; [exact Hlen|]. split; [exact Hrun|]. split; [exact Hwins|].
  split; [exact Hpos|].
  exact (winning_draw_is_combo sampleDeck 2 _ Hlen Hrun Hwins Hpos).
Defined.

(** The cards below the winning draw are never looked at: a trial that
    wins gives the same result on every deck that starts with the same
    cards up to and including the last one drawn. *)
Theorem cards_after_win_irrelevant (deck deck' : list Card) (required : Z)
    (sim : Simulation) :
  go_len deck -> go_len deck' ->
  runSimulation deck required = Some sim ->
  wins deck required sim ->
  take (7 + Z.to_nat (drawsToWinCon sim)) deck'
    = take (7 + Z.to_nat (drawsToWinCon sim)) deck ->
  (7 + Z.to_nat (drawsToWinCon sim) <= length deck')%nat ->
  runSimulation deck' required = Some sim.
Proof.
  intros Hlen Hlen' Hrun Hwins Hsame Hlong.
  destruct (runSimulation_stop deck required sim Hlen Hrun)
    as (d & -> & Hd & Hbefore & _).
  unfold wins, handAtReturn in Hwins. cbn [drawsToWinCon] in *.
  rewrite Nat2Z.id in *. fold (winAt deck required (7 + d)) in Hwins.
  assert (Hwin : forall k, (k <= 7 + d)%nat ->
                   winAt deck' required k = winAt deck required k).
  { intros k Hk. unfold winAt.
    replace (take k deck') with (take k (take (7 + d) deck'))
      by (rewrite take_take; f_equal; lia).
    rewrite Hsame, take_take. do 2 f_equal. lia. }
  destruct (runSimulation_spec deck' required) as (d' & Hrun' & Hd' & Hbefore' & Hstop');
    [lia|done|].
  assert (d' = d) as ->.
  { destruct (Nat.lt_trichotomy d' d) as [Hlt|[Heq|Hgt]]; [|done|].
    - destruct Hstop' as [Hw|[Hend _]]; [|lia].
      rewrite Hwin, Hbefore in Hw by lia. discriminate.
    - rewrite <- Hwin in Hwins by lia. rewrite Hbefore' in Hwins by lia.
      discriminate. }
  rewrite Hrun'. do 2 f_equal.
  - apply Hwin. lia.
  - replace (take 7 deck') with (take 7 (take (7 + d) deck'))
      by (rewrite take_take; f_equal; lia).
    rewrite Hsame, take_take. by f_equal.
Qed.

Lemma cards_after_win_irrelevant_witness :
  go_len sampleDeck /\ go_len (take 9 sampleDeck ++ [comboCard; comboCard]) /\
  runSimulation sampleDeck 2 = Some (mkSimulation 2 false 1) /\
  wins sampleDeck 2 (mkSimulation 2 false 1) /\
  runSimulation (take 9 sampleDeck ++ [comboCard; comboCard]) 2
    = Some (mkSimulation 2 false 1).
Proof.
  assert (Hlen : go_len sampleDeck) by (vm_compute; discriminate).
  assert (Hlen' : go_len (take 9 sampleDeck ++ [comboCard; comboCard]))
    by (vm_compute; discriminate).
  assert (Hrun : runSimulation sampleDeck 2 = Some (mkSimulation 2 false 1))
    by (vm_compute; reflexivity).
  assert (Hwins : wins sampleDeck 2 (mkSimulation 2 false 1))
    by (vm_compute; reflexivity).
  split; [exact Hlen|]. split; [exact Hlen'|]. split; [exact Hrun|].
  split; [exact Hwins|].
  apply (cards_after_win_irrelevant sampleDeck _ 2 _ Hlen Hlen' Hrun Hwins);
    [reflexivity | simpl; lia].
Defined.

Lemma comboCount_take_flags (deck1 : list Card) : forall (deck2 : list Card) (k : nat),
  combo <$> deck1 = combo <$> deck2 ->
  comboCount (take k deck1) = comboCount (take k deck2).
Proof.
  induction deck1 as [|c1 deck1 IH]; intros [|c2 deck2] k Hflags;
    try discriminate; [reflexivity|].
  injection Hflags as Hc Hrest.
  destruct k as [|k]; [reflexivity|].
  cbn [take]. rewrite !comboCount_cons, Hc, (IH deck2 k Hrest). reflexivity.
Qed.

(** Only the combo marks matter to the race: two decks with the same
    marks at the same positions give the same draw count and the same
    opening-hand flag, whatever their keywords. *)
Theorem keywords_irrelevant_to_win (deck1 deck2 : list Card) (required : Z)
    (sim1 sim2 : Simulation) :
  go_len deck1 ->
  combo <$> deck1 = combo <$> deck2 ->
  runSimulation deck1 required = Some sim1 ->
  runSimulation deck2 required = Some sim2 ->
  drawsToWinCon sim1 = drawsToWinCon sim2 /\
  openingHandWin sim1 = openingHandWin sim2.
Proof.
  intros Hlen1 Hflags Hrun1 Hrun2.
  assert (Hlength : length deck1 = length deck2).
  { by rewrite <- (length_fmap combo deck1), Hflags, length_fmap. }
  assert (Hlen2 : go_len deck2) by (unfold go_len in *; lia).
  assert (Hwin : forall k, winAt deck1 required k = winAt deck2 required k).
  { intros k. rewrite !winAt_spec by done.
    by rewrite (comboCount_take_flags deck1 deck2 k Hflags). }
  destruct (runSimulation_stop deck1 required sim1 Hlen1 Hrun1)
    as (d1 & -> & Hd1 & Hbefore1 & Hstop1).
  destruct (runSimulation_stop deck2 required sim2 Hlen2 Hrun2)
    as (d2 & -> & Hd2 & Hbefore2 & Hstop2).
  cbn [drawsToWinCon openingHandWin]. split; [|apply Hwin].
  f_equal. apply (stop_unique deck2 required); try done; try lia.
  - intros k Hk. rewrite <- Hwin. by apply Hbefore1.
  - rewrite <- Hwin, <- Hlength. exact Hstop1.
Qed.

Lemma keywords_irrelevant_to_win_witness :
  go_len sampleDeck /\
  combo <$> sampleDeck = combo <$> (mkCard "island" <$> (combo <$> sampleDeck)) /\
  runSimulation sampleDeck 2 = Some (mkSimulation 2 false 1) /\
  runSimulation (mkCard "island" <$> (combo <$> sampleDeck)) 2
    = Some (mkSimulation 2 false 0) /\
  2 = 2 /\ false = false.
Proof.
  assert (Hlen : go_len sampleDeck) by (vm_compute; discriminate).
  assert (Hflags : combo <$> sampleDeck
                   = combo <$> (mkCard "island" <$> (combo <$> sampleDeck)))
    by reflexivity.
  assert (Hrun1 : runSimulation sampleDeck 2 = Some (mkSimulation 2 false 1))
    by (vm_compute; reflexivity).
  assert (Hrun2 : runSimulation (mkCard "island" <$> (combo <$> sampleDeck)) 2
                  = Some (mkSimulation 2 false 0)) by (vm_compute; reflexivity).
  split; [exact Hlen|]. split; [exact Hflags|]. split; [exact Hrun1|].
  split; [exact Hrun2|].
  exact (keywords_irrelevant_to_win sampleDeck _ 2 _ _ Hlen Hflags Hrun1 Hrun2).
Defined.

(** ** The swap closure and [shuffleDeck] *)

(** On indices that are not negative, the swap panics exactly when one
    of them is not below the length of the deck. *)
Lemma swap_panics_iff (deck : list Card) (i j : nat) :
  swap deck i j = None <-> (length deck <= i)%nat \/ (length deck <= j)%nat.
Proof.
  unfold swap. split.
  - intros Hnone.
    destruct (deck !! i) as [ci|] eqn:Hi; [|left; by apply lookup_ge_None].
    destruct (deck !! j) as [cj|] eqn:Hj; [discriminate|].
    right. by apply lookup_ge_None.
  - intros [Hi|Hj].
    + by rewrite (lookup_ge_None_2 deck i Hi).
    + rewrite (lookup_ge_None_2 deck j Hj). by destruct (deck !! i).
Qed.

Lemma swap_swapInt (deck : list Card) (i j : nat) :
  swap deck i j = swapInt deck (Z.of_nat i) (Z.of_nat j).
Proof.
  unfold swap, swapInt, indexInt.
  rewrite !decide_True by lia. by rewrite !Nat2Z.id.
Qed.

(** The swap closure, with its [int] indices, panics exactly when one of
    them is out of range: negative, or not below the length of the
    deck.  On the indices a shuffle hands it, which are not negative, it
    is the swap used in [shuffleDeck]. *)
Theorem swap_closure_panics_iff (deck : list Card) :
  (forall i j : Z,
     swapInt deck i j = None <->
     ~ (0 <= i < Z.of_nat (length deck)) \/ ~ (0 <= j < Z.of_nat (length deck))) /\
  (forall i j : nat, swap deck i j = swapInt deck (Z.of_nat i) (Z.of_nat j)).
Proof.
  split; [|apply swap_swapInt].
  intros i j.
  destruct (decide (0 <= i)) as [Hi|Hi].
  2: { unfold swapInt, indexInt. rewrite (decide_False (P := 0 <= i)) by exact Hi.
       split; [intros _; left; lia|reflexivity]. }
  destruct (decide (0 <= j)) as [Hj|Hj].
  2: { unfold swapInt, indexInt. rewrite (decide_False (P := 0 <= j)) by exact Hj.
       split; [intros _; right; lia|].
       intros _. by destruct (if decide (0 <= i) then _ else _). }
  rewrite <- (Z2Nat.id i Hi), <- (Z2Nat.id j Hj) at 1.
  rewrite <- swap_swapInt, swap_panics_iff. lia.
Qed.

Lemma swap_closure_panics_iff_witness :
  swapInt sampleDeck (-1) 3 = None /\
  (swapInt sampleDeck (-1) 3 = None <->
   ~ (0 <= -1 < Z.of_nat (length sampleDeck)) \/
   ~ (0 <= 3 < Z.of_nat (length sampleDeck))).
Proof.
  split; [reflexivity|].
  exact (proj1 (swap_closure_panics_iff sampleDeck) (-1) 3).
Defined.

(** Swapping the same two cells twice gives the deck back, and the
    order of the two indices does not matter. *)
Theorem swap_twice (deck : list Card) (i j : nat) :
  (i < length deck)%nat -> (j < length deck)%nat ->
  (swap deck i j ≫= fun deck' => swap deck' i j) = Some deck /\
  swap deck i j = swap deck j i.
Proof.
  intros Hi Hj.
  destruct (lookup_lt_is_Some_2 deck i Hi) as [ci Hci].
  destruct (lookup_lt_is_Some_2 deck j Hj) as [cj Hcj].
  unfold swap. rewrite Hci, Hcj. cbn [mbind option_bind]. split.
  - destruct (decide (i = j)) as [->|Hne].
    + rewrite list_insert_insert_eq, list_lookup_insert_eq by lia.
      cbn [mbind option_bind]. rewrite !list_insert_insert_eq.
      f_equal. by apply list_insert_id.
    + assert (Hne' : j <> i) by congruence.
      assert (Hi1 : (<[j:=ci]> (<[i:=cj]> deck)) !! i = Some cj).
      { rewrite list_lookup_insert_ne by exact Hne'.
        by apply list_lookup_insert_eq. }
      assert (Hj1 : (<[j:=ci]> (<[i:=cj]> deck)) !! j = Some ci).
      { apply list_lookup_insert_eq. by rewrite length_insert. }
      rewrite Hi1, Hj1. cbn [mbind option_bind]. f_equal.
      rewrite (list_insert_insert_ne _ i j ci ci) by exact Hne.
      rewrite !list_insert_insert_eq.
      rewrite (list_insert_id deck i ci Hci).
      by apply list_insert_id.
  - destruct (decide (i = j)) as [->|Hne].
    + congruence.
    + f_equal. by apply list_insert_insert_ne.
Qed.

Lemma swap_twice_witness :
  (0 < length sampleDeck)%nat /\ (1 < length sampleDeck)%nat /\
  swap sampleDeck 0 1 <> Some sampleDeck /\
  (swap sampleDeck 0 1 ≫= fun deck' => swap deck' 0 1) = Some sampleDeck /\
  swap sampleDeck 0 1 = swap sampleDeck 1 0.
Proof.
  assert (H0 : (0 < length sampleDeck)%nat) by (simpl; lia).
  assert (H1 : (1 < length sampleDeck)%nat) by (simpl; lia).
  split; [exact H0|]. split; [exact H1|]. split; [discriminate|].
  exact (swap_twice sampleDeck 0 1 H0 H1).
Defined.

(** Whatever the generator, [shuffleDeck] returns, and what it returns
    holds the same cards as the deck it was given: as many cards, as
    many lands, as many combo pieces.  A deck of at most one card comes
    back as it is. *)
Theorem shuffleDeck_permutes {Rand : Type} {RS : RandSource Rand}
    (deck : list Card) (rng : Rand) :
  exists deck',
    shuffleDeck deck rng = Some deck' /\
    deck' ≡ₚ deck /\
    length deck' = length deck /\
    landCount deck' = landCount deck /\
    comboCount deck' = comboCount deck /\
    ((length deck <= 1)%nat -> deck' = deck).
Proof.
  destruct (shuffleDeck_spec deck rng) as (deck' & Hrun & Hperm).
  exists deck'. split; [exact Hrun|]. split; [exact Hperm|].
  split; [by rewrite Hperm|]. split; [unfold landCount; by rewrite Hperm|].
  split; [by apply comboCount_perm|].
  intros Hshort. destruct deck as [|c [|c' deck]]; cbn [length] in Hshort; [| |lia].
  - by apply Permutation_nil_r.
  - by apply Permutation_singleton_r.
Qed.

(** ** [createDeck] on any configuration *)

Lemma createDeck_stacked {Rand : Type} {RS : RandSource Rand}
    (cfg : Config) (rng : Rand) :
  exists deck, createDeck cfg rng = Some deck /\ deck ≡ₚ stackedDeck cfg.
Proof. rewrite createDeck_unfold. apply shuffleDeck_spec. Qed.

Lemma comboCount_stackedDeck (cfg : Config) :
  comboCount (stackedDeck cfg) = Z.to_nat (combos cfg).
Proof.
  change (comboCount (stackedDeck cfg))
    with (count (fun c => combo c = true) (stackedDeck cfg)).
  rewrite count_stackedDeck. decide_cards.
Qed.

Lemma length_stackedDeck_dealt (cfg : Config) :
  Z.of_nat (length (stackedDeck cfg)) = dealt cfg.
Proof. rewrite length_stackedDeck. unfold dealt. lia. Qed.

(** [createDeck] does not need a checked configuration: whenever the
    cards its three loops append are few enough for a slice, it returns
    a deck of that many cards, with [lands] land cards and [combos]
    combo pieces (none for a negative count) and no land among the
    combo pieces. *)
Theorem createDeck_any_config {Rand : Type} {RS : RandSource Rand}
    (cfg : Config) (rng : Rand) :
  dealt cfg <= GoInt.max_int ->
  exists deck,
    createDeck cfg rng = Some deck /\
    go_len deck /\
    Z.of_nat (length deck) = dealt cfg /\
    count isLand deck = Z.to_nat (lands cfg) /\
    comboCount deck = Z.to_nat (combos cfg) /\
    count isComboNonLand deck = Z.to_nat (combos cfg).
Proof.
  intros Hfits.
  destruct (createDeck_stacked cfg rng) as (deck & Hrun & Hperm).
  exists deck. split; [exact Hrun|].
  assert (Hsize : Z.of_nat (length deck) = dealt cfg)
    by (rewrite Hperm; apply length_stackedDeck_dealt).
  split; [unfold go_len; lia|]. split; [exact Hsize|].
  rewrite (comboCount_perm _ _ Hperm), comboCount_stackedDeck.
  unfold count. rewrite !Hperm.
  fold (count isLand (stackedDeck cfg)) (count isComboNonLand (stackedDeck cfg)).
  rewrite !count_stackedDeck. split; [|split; [done|]]; decide_cards.
Qed.

Lemma createDeck_any_config_witness :
  is_Some (validateConfig uncheckedConfig) /\
  dealt uncheckedConfig <= GoInt.max_int /\
  exists deck,
    createDeck (RS := FisherYates_rand) uncheckedConfig 1 = Some deck /\
    go_len deck /\
    Z.of_nat (length deck) = dealt uncheckedConfig /\
    count isLand deck = Z.to_nat (lands uncheckedConfig) /\
    comboCount deck = Z.to_nat (combos uncheckedConfig) /\
    count isComboNonLand deck = Z.to_nat (combos uncheckedConfig).
Proof.
  assert (Hfits : dealt uncheckedConfig <= GoInt.max_int)
    by (vm_compute; discriminate).
  split; [vm_compute; by eexists|]. split; [exact Hfits|].
  exact (createDeck_any_config (RS := FisherYates_rand) uncheckedConfig 1 Hfits).
Defined.

(** [createDeck] does not cut the deck to size: asked for more lands and
    combo pieces than [deckSize], it deals them all and no plain card,
    so the deck is larger than [deckSize]. *)
Theorem createDeck_overcommitted {Rand : Type} {RS : RandSource Rand}
    (cfg : Config) (rng : Rand) :
  wf_Config cfg ->
  0 <= deckSize cfg -> 0 <= lands cfg -> 0 <= combos cfg ->
  deckSize cfg < lands cfg + combos cfg <= GoInt.max_int ->
  exists deck,
    createDeck cfg rng = Some deck /\
    Z.of_nat (length deck) = lands cfg + combos cfg /\
    count isPlainNonLand deck = 0%nat.
Proof.
  intros Hwf Hd Hl Hc Hover.
  destruct (createDeck_stacked cfg rng) as (deck & Hrun & Hperm).
  exists deck. split; [exact Hrun|].
  assert (Hplain : GoInt.sub (GoInt.sub (deckSize cfg) (lands cfg)) (combos cfg)
                   = deckSize cfg - lands cfg - combos cfg).
  { rewrite (GoIntFacts.sub_no_wrap (deckSize cfg)) by int_range.
    apply GoIntFacts.sub_no_wrap. int_range. }
  unfold count. rewrite !Hperm.
  fold (count isPlainNonLand (stackedDeck cfg)).
  rewrite length_stackedDeck, count_stackedDeck, Hplain.
  split; [lia|]. decide_cards.
Qed.

Lemma createDeck_overcommitted_witness :
  wf_Config (mkConfig 7 5 4 1 1 1) /\ 0 <= 7 /\ 0 <= 5 /\ 0 <= 4 /\
  7 < 5 + 4 <= GoInt.max_int /\
  exists deck,
    createDeck (RS := FisherYates_rand) (mkConfig 7 5 4 1 1 1) 1 = Some deck /\
    Z.of_nat (length deck) = 5 + 4 /\
    count isPlainNonLand deck = 0%nat.
Proof.
  assert (Hwf : wf_Config (mkConfig 7 5 4 1 1 1)) by int_range.
  assert (Hd : 0 <= 7) by lia. assert (Hl : 0 <= 5) by lia.
  assert (Hc : 0 <= 4) by lia.
  assert (Hover : 7 < 5 + 4 <= GoInt.max_int) by (unfold GoInt.max_int; lia).
  split; [exact Hwf|]. split; [exact Hd|]. split; [exact Hl|].
  split; [exact Hc|]. split; [exact Hover|].
  exact (createDeck_overcommitted (RS := FisherYates_rand)
           (mkConfig 7 5 4 1 1 1) 1 Hwf Hd Hl Hc Hover).
Defined.

(** ** Trials of a valid configuration *)

Lemma comboCount_drop_le (k : nat) (l : list Card) :
  (comboCount l <= comboCount (take k l) + (length l - k))%nat.
Proof.
  rewrite <- (take_drop k l) at 1. rewrite comboCount_app.
  pose proof (comboCount_le_length (drop k l)) as H.
  rewrite length_drop in H. lia.
Qed.

(** A winning trial stops no later than the last draw that still leaves
    the surplus combo pieces in the library. *)
Lemma winning_draws_bound (deck : list Card) (required : Z) (sim : Simulation) :
  go_len deck ->
  runSimulation deck required = Some sim ->
  wins deck required sim ->
  drawsToWinCon sim
  <= Z.max 0 (Z.of_nat (length deck) - 7 - (Z.of_nat (comboCount deck) - required)).
Proof.
  intros Hlen Hrun Hwins.
  destruct (runSimulation_stop deck required sim Hlen Hrun)
    as (d & -> & Hd & Hbefore & _).
  unfold wins, handAtReturn in Hwins. cbn [drawsToWinCon] in *.
  rewrite Nat2Z.id in Hwins. fold (winAt deck required (7 + d)) in Hwins.
  rewrite winAt_spec in Hwins by done. apply bool_decide_eq_true in Hwins.
  destruct (first_win_is_nth_combo deck (Z.to_nat required) d) as (i & Hi & Hdraw);
    [lia|lia| |].
  - intros k Hk. specialize (Hbefore k Hk).
    rewrite winAt_spec in Hbefore by done.
    apply bool_decide_eq_false in Hbefore. lia.
  - apply nthComboIndex_spec in Hi as (_ & Hcount & Hi).
    pose proof (comboCount_drop_le (S i) deck).
    unfold drawOfIndex in Hdraw. lia.
Qed.

(** For a valid configuration no trial is lost: each one builds a deck
    of [deckSize] cards and wins on it, after at most
    [deckSize - 7 - (combos - required)] draws (or none, when that
    number is negative). *)
Theorem valid_trial_wins {Rand : Type} {RS : RandSource Rand}
    (cfg : Config) (simIndex : Z) :
  valid cfg ->
  exists (deck : list Card) (sim : Simulation),
    createDeck cfg (NewRand (simSeed (seed cfg) simIndex)) = Some deck /\
    runTrial cfg simIndex = Some sim /\
    Z.of_nat (length deck) = deckSize cfg /\
    wins deck (required cfg) sim /\
    0 <= drawsToWinCon sim
      <= Z.max 0 (deckSize cfg - 7 - (combos cfg - required cfg)).
Proof.
  intros Hvalid. pose proof (valid_validateConfig cfg Hvalid) as Hpass.
  destruct Hvalid as [Hwf Hok]. apply validateConfig_None in Hpass.
  assert (Hfit : lands cfg + combos cfg <= deckSize cfg).
  { destruct (decide (lands cfg + combos cfg <= deckSize cfg)); [done|].
    destruct Hok. unfold invalid. lia. }
  destruct (createDeck_stacked cfg (NewRand (simSeed (seed cfg) simIndex)))
    as (deck & Hdeck & Hperm).
  assert (Hsize : Z.of_nat (length deck) = deckSize cfg).
  { rewrite Hperm, length_stackedDeck, (plain_count_no_wrap cfg) by (done || lia).
    lia. }
  assert (Hcombos : Z.of_nat (comboCount deck) = combos cfg).
  { rewrite (comboCount_perm _ _ Hperm), comboCount_stackedDeck. lia. }
  assert (Hlen : go_len deck) by (unfold go_len; int_range).
  assert (H7 : (7 <= length deck)%nat) by lia.
  destruct (proj2 (runSimulation_safe_iff deck (required cfg)) H7) as [sim Hrun].
  exists deck, sim. split; [exact Hdeck|]. split.
  { unfold runTrial. rewrite Hdeck. exact Hrun. }
  split; [exact Hsize|].
  assert (Hwins : wins deck (required cfg) sim).
  { apply wins_iff_enough_combos; [done|done|done|lia]. }
  split; [exact Hwins|].
  pose proof (winning_draws_bound deck (required cfg) sim Hlen Hrun Hwins) as Hbound.
  destruct (runSimulation_stop deck (required cfg) sim Hlen Hrun) as (d & -> & _).
  cbn [drawsToWinCon] in *. lia.
Qed.

Lemma valid_trial_wins_witness :
  valid smallConfig /\
  exists (deck : list Card) (sim : Simulation),
    createDeck (RS := FisherYates_rand) smallConfig
               (simSeed (seed smallConfig) 0) = Some deck /\
    runTrial (RS := FisherYates_rand) smallConfig 0 = Some sim /\
    Z.of_nat (length deck) = deckSize smallConfig /\
    wins deck (required smallConfig) sim /\
    0 <= drawsToWinCon sim
      <= Z.max 0 (deckSize smallConfig - 7
                  - (combos smallConfig - required smallConfig)).
Proof.
  assert (Hvalid : valid smallConfig).
  { split; [unfold smallConfig; int_range|]. unfold invalid. cbn. lia. }
  split; [exact Hvalid|].
  exact (valid_trial_wins (RS := FisherYates_rand) smallConfig 0 Hvalid).
Defined.

(** ** [simSeed]: which inputs share a seed *)

Lemma simSeed_mix (baseSeed simIndex : Z) :
  simSeed baseSeed simIndex = GoInt.to_int64 (SplitMix.mix baseSeed simIndex).
Proof.
  unfold simSeed. change 0x9e3779b97f4a7c15 with SplitMix.golden.
  rewrite SplitMixFacts.seed_sum.
  unfold SplitMix.mix, SplitMix.xor_shift, SplitMix.mul_odd, GoInt.to_uint64.
  rewrite !Z.shiftr_div_pow2 by lia. reflexivity.
Qed.

Lemma to_int64_inj_uint64 (x y : Z) :
  0 <= x < 2 ^ 64 -> 0 <= y < 2 ^ 64 ->
  GoInt.to_int64 x = GoInt.to_int64 y -> x = y.
Proof.
  intros Hx Hy Heq.
  rewrite <- (Z.mod_small x (2 ^ 64)), <- (Z.mod_small y (2 ^ 64)) by lia.
  rewrite <- (GoIntFacts.to_int64_mod x), <- (GoIntFacts.to_int64_mod y).
  by rewrite Heq.
Qed.

Lemma testbit_above_uint64 (x n : Z) :
  0 <= x < 2 ^ 64 -> 64 <= n -> Z.testbit x n = false.
Proof.
  intros Hx Hn. apply Z.bits_above_log2; [lia|].
  pose proof (SplitMixFacts.log2_lt_64 x Hx). lia.
Qed.

(** A xor-shift step loses nothing: the top bits pass unchanged and each
    lower bit is recovered from the bit [k] places above it. *)
Lemma xor_shift_inj (k x y : Z) :
  0 < k -> 0 <= x < 2 ^ 64 -> 0 <= y < 2 ^ 64 ->
  SplitMix.xor_shift k x = SplitMix.xor_shift k y -> x = y.
Proof.
  intros Hk Hx Hy Heq. unfold SplitMix.xor_shift in Heq.
  rewrite <- !Z.shiftr_div_pow2 in Heq by lia.
  assert (Hbits : forall (m : nat) (n : Z),
            64 - Z.of_nat m <= n -> 0 <= n -> Z.testbit x n = Z.testbit y n).
  { induction m as [|m IH]; intros n Hn H0.
    - rewrite !testbit_above_uint64 by lia. reflexivity.
    - assert (Hup : Z.testbit x (n + k) = Z.testbit y (n + k)) by (apply IH; lia).
      assert (Hn' : Z.testbit (Z.lxor x (Z.shiftr x k)) n
                    = Z.testbit (Z.lxor y (Z.shiftr y k)) n) by (by rewrite Heq).
      rewrite !Z.lxor_spec, !Z.shiftr_spec, Hup in Hn' by lia.
      destruct (Z.testbit x n), (Z.testbit y n), (Z.testbit y (n + k));
        cbn in Hn'; congruence. }
  apply Z.bits_inj'. intros n Hn. apply (Hbits 64%nat). lia. exact Hn.
Qed.

(** A multiplication by an odd constant is undone by the multiplication
    by its inverse modulo [2^64]. *)
Lemma mul_odd_inj (c cinv x y : Z) :
  (c * cinv) mod 2 ^ 64 = 1 ->
  0 <= x < 2 ^ 64 -> 0 <= y < 2 ^ 64 ->
  SplitMix.mul_odd c x = SplitMix.mul_odd c y -> x = y.
Proof.
  intros Hinv Hx Hy Heq. unfold SplitMix.mul_odd in Heq.
  assert (Hback : forall z, ((z * c) mod 2 ^ 64 * cinv) mod 2 ^ 64 = z mod 2 ^ 64).
  { intros z. rewrite Z.mul_mod_idemp_l by lia.
    rewrite <- Z.mul_assoc, <- Z.mul_mod_idemp_r, Hinv by lia.
    by rewrite Z.mul_1_r. }
  rewrite <- (Z.mod_small x (2 ^ 64)), <- (Z.mod_small y (2 ^ 64)) by lia.
  by rewrite <- (Hback x), <- (Hback y), Heq.
Qed.

Lemma mix_inj (b1 i1 b2 i2 : Z) :
  SplitMix.mix b1 i1 = SplitMix.mix b2 i2 ->
  (b1 + i1) mod 2 ^ 64 = (b2 + i2) mod 2 ^ 64.
Proof.
  unfold SplitMix.mix. intros Heq.
  apply xor_shift_inj in Heq;
    [|lia|apply SplitMixFacts.mul_odd_uint64|apply SplitMixFacts.mul_odd_uint64].
  apply (mul_odd_inj _ 0x319642b2d24d8ec3) in Heq;
    [|vm_compute; reflexivity
     |apply SplitMixFacts.xor_shift_uint64; [lia|apply SplitMixFacts.mul_odd_uint64]
     |apply SplitMixFacts.xor_shift_uint64; [lia|apply SplitMixFacts.mul_odd_uint64]].
  apply xor_shift_inj in Heq;
    [|lia|apply SplitMixFacts.mul_odd_uint64|apply SplitMixFacts.mul_odd_uint64].
  assert (Hpos : 0 < 2 ^ 64) by lia.
  apply (mul_odd_inj _ 0x96de1b173f119089) in Heq;
    [|vm_compute; reflexivity
     |apply SplitMixFacts.xor_shift_uint64; [lia|by apply Z.mod_pos_bound]
     |apply SplitMixFacts.xor_shift_uint64; [lia|by apply Z.mod_pos_bound]].
  apply xor_shift_inj in Heq;
    [|lia|by apply Z.mod_pos_bound|by apply Z.mod_pos_bound].
  rewrite <- (Zplus_mod_idemp_l (b1 + i1)), <- (Zplus_mod_idemp_l (b2 + i2)) in Heq.
  apply (f_equal (fun z => (z - SplitMix.golden) mod 2 ^ 64)) in Heq.
  rewrite !Zminus_mod_idemp_l in Heq.
  by rewrite !Z.add_simpl_r, !Z.mod_mod in Heq by lia.
Qed.

(** Two derived seeds are equal exactly when base seed plus trial index
    agree modulo [2^64]; so under one base seed distinct trial indices
    get distinct seeds, and under one trial index distinct base seeds
    do. *)
Theorem simSeed_collision_iff :
  (forall b1 i1 b2 i2 : Z,
     simSeed b1 i1 = simSeed b2 i2 <->
     (b1 + i1) mod 2 ^ 64 = (b2 + i2) mod 2 ^ 64) /\
  (forall b i1 i2 : Z,
     GoInt.in_int i1 -> GoInt.in_int i2 ->
     simSeed b i1 = simSeed b i2 -> i1 = i2) /\
  (forall b1 b2 i : Z,
     GoInt.in_int b1 -> GoInt.in_int b2 ->
     simSeed b1 i = simSeed b2 i -> b1 = b2).
Proof.
  assert (Hiff : forall b1 i1 b2 i2 : Z,
            simSeed b1 i1 = simSeed b2 i2 <->
            (b1 + i1) mod 2 ^ 64 = (b2 + i2) mod 2 ^ 64).
  { intros b1 i1 b2 i2. rewrite !simSeed_mix. split.
    - intros Heq. apply mix_inj.
      apply to_int64_inj_uint64; [apply SplitMixFacts.mix_uint64..|exact Heq].
    - intros Heq. unfold SplitMix.mix.
      rewrite <- (Zplus_mod_idemp_l (b1 + i1)), Heq, Zplus_mod_idemp_l.
      reflexivity. }
  assert (Hcancel : forall a x y : Z,
            GoInt.in_int x -> GoInt.in_int y ->
            (a + x) mod 2 ^ 64 = (a + y) mod 2 ^ 64 -> x = y).
  { intros a x y Hx Hy Heq.
    unfold GoInt.in_int, GoInt.min_int, GoInt.max_int in *.
    assert (Hdiff : (x - y) mod 2 ^ 64 = 0).
    { replace (x - y) with ((a + x) - (a + y)) by lia.
      rewrite Zminus_mod, Heq, Z.sub_diag. reflexivity. }
    apply Z.mod_divide in Hdiff as [q Hq]; [|lia]. nia. }
  split; [exact Hiff|]. split.
  - intros b i1 i2 H1 H2 Heq. apply Hiff in Heq. by apply (Hcancel b).
  - intros b1 b2 i H1 H2 Heq. apply Hiff in Heq.
    apply (Hcancel i); [done|done|]. by rewrite !(Z.add_comm i).
Qed.

Lemma simSeed_collision_iff_witness :
  (simSeed 42 1 = simSeed 43 0 <-> (42 + 1) mod 2 ^ 64 = (43 + 0) mod 2 ^ 64) /\
  (GoInt.in_int 3 -> GoInt.in_int 3 -> simSeed 42 3 = simSeed 42 3 -> 3 = 3).
Proof.
  split.
  - exact (proj1 simSeed_collision_iff 42 1 43 0).
  - exact (proj1 (proj2 simSeed_collision_iff) 42 3 3).
Defined.

(** Neighbouring base seeds share their trials: trial [i] under base
    seed [b + k] is built from the same generator as trial [i + k]
    under base seed [b], and has the same result. *)
Theorem neighbouring_seeds_share_trials {Rand : Type} {RS : RandSource Rand}
    (cfg : Config) (k simIndex : Z) :
  simSeed (seed cfg + k) simIndex = simSeed (seed cfg) (simIndex + k) /\
  runTrial (withSeed cfg (seed cfg + k)) simIndex = runTrial cfg (simIndex + k).
Proof.
  assert (Hseed : simSeed (seed cfg + k) simIndex = simSeed (seed cfg) (simIndex + k)).
  { rewrite !simSeed_mix. unfold SplitMix.mix.
    replace (seed cfg + k + simIndex + SplitMix.golden)
      with (seed cfg + (simIndex + k) + SplitMix.golden) by lia.
    reflexivity. }
  split; [exact Hseed|].
  unfold runTrial. cbn [withSeed seed required]. by rewrite Hseed.
Qed.

(** ** [validateConfig]: what keeps a configuration accepted *)

(** An accepted configuration stays accepted when the deck is enlarged,
    the requirement is lowered (not below one), and the number of runs
    and the seed are changed freely (runs to one or more). *)
Theorem validateConfig_monotone (cfg cfg' : Config) :
  validateConfig cfg = None ->
  lands cfg' = lands cfg -> combos cfg' = combos cfg ->
  deckSize cfg <= deckSize cfg' ->
  1 <= required cfg' <= required cfg ->
  1 <= runs cfg' ->
  validateConfig cfg' = None.
Proof.
  intros Hv Hl Hc Hd Hr Hruns. apply validateConfig_None in Hv.
  apply validateConfig_None. rewrite Hl, Hc. lia.
Qed.

Lemma validateConfig_monotone_witness :
  validateConfig testConfig = None /\
  validateConfig (mkConfig 99 24 4 1 5000 42) = None.
Proof.
  assert (Hv : validateConfig testConfig = None) by (vm_compute; reflexivity).
  split; [exact Hv|].
  apply (validateConfig_monotone testConfig (mkConfig 99 24 4 1 5000 42) Hv);
    cbn; lia.
Defined.

(** ** The worker pool: progress and termination *)

Lemma idle_all (ws : list (option Simulation)) (k : nat) (o : option Simulation) :
  forallb idle ws = true -> ws !! k = Some o -> o = None.
Proof.
  revert k. induction ws as [|[x|] ws IH]; intros [|k] Hall Hk;
    cbn in Hall, Hk; try discriminate.
  - by injection Hk as <-.
  - by apply (IH k).
Qed.

Lemma busy_some (ws : list (option Simulation)) :
  forallb idle ws = false -> exists k sim, ws !! k = Some (Some sim).
Proof.
  induction ws as [|[x|] ws IH]; cbn; intros Hbusy; [discriminate| |].
  - by exists 0%nat, x.
  - destruct (IH Hbusy) as (k & sim & Hk). by exists (S k), sim.
Qed.

Lemma step_workers_length {Rand : Type} {RS : RandSource Rand}
    (cfg : Config) (a : action) (s s' : Pool) :
  step cfg a s = Some s' -> length (workers s') = length (workers s).
Proof.
  intros Hstep. destruct a as [|w|w|]; cbn [step] in Hstep.
  - case_decide; [|discriminate]. by injection Hstep as <-.
  - destruct (workers s !! w) as [[?|]|]; try discriminate.
    destruct (jobs s); [discriminate|].
    destruct (runTrial cfg _); [|discriminate].
    cbn [mbind option_bind] in Hstep. injection Hstep as <-.
    cbn [workers]. apply length_insert.
  - destruct (workers s !! w) as [[?|]|]; try discriminate.
    case_decide; [|discriminate]. injection Hstep as <-.
    cbn [workers]. apply length_insert.
  - destruct (output s); [discriminate|]. by injection Hstep as <-.
Qed.

Lemma exec_workers_length {Rand : Type} {RS : RandSource Rand}
    (cfg : Config) (sched : list action) : forall s s',
  exec cfg sched s = Some s' -> length (workers s') = length (workers s).
Proof.
  induction sched as [|a rest IH]; intros s s' Hexec; cbn [exec] in Hexec.
  - by injection Hexec as <-.
  - destruct (step cfg a s) as [s1|] eqn:Hstep; [|discriminate].
    cbn [mbind option_bind] in Hexec.
    rewrite (IH _ _ Hexec). by eapply step_workers_length.
Qed.

(** The pool never deadlocks: for a valid configuration and at least one
    worker, in every state a schedule can lead to, either the run is
    complete or some goroutine can take a step. *)
Theorem pool_never_deadlocks {Rand : Type} {RS : RandSource Rand}
    (cfg : Config) (w : nat) (sched : list action) (s : Pool) :
  valid cfg -> (1 <= w)%nat ->
  exec cfg sched (initPool w) = Some s ->
  finished cfg s = true \/ exists a : action, is_Some (step cfg a s).
Proof.
  intros Hvalid Hw Hexec.
  pose proof (valid_validateConfig cfg Hvalid) as Hpass. destruct Hvalid as [Hwf _].
  assert (Hws : length (workers s) = w).
  { rewrite (exec_workers_length _ _ _ _ Hexec). cbn. apply length_replicate. }
  destruct (output s) as [|sim out] eqn:Hout.
  2: { right. exists Consume. cbn [step]. rewrite Hout. by eexists. }
  destruct (forallb idle (workers s)) eqn:Hidle.
  2: { right. destruct (busy_some _ Hidle) as (k & sim & Hk).
       exists (Send k). cbn [step]. rewrite Hk, Hout.
       rewrite decide_True by (cbn; unfold outputCap; lia). by eexists. }
  destruct (jobs s) as [|simIndex rest] eqn:Hjobs.
  - destruct (decide (nextJob s < runs cfg)) as [Hmore|Hdone].
    + right. exists Produce. cbn [step]. rewrite Hjobs.
      rewrite decide_True by (cbn [length]; lia). by eexists.
    + left. unfold finished. rewrite Hjobs, Hout, Hidle.
      by rewrite bool_decide_eq_true_2.
  - right. exists (Receive 0). cbn [step].
    destruct (lookup_lt_is_Some_2 (workers s) 0) as [o Ho]; [lia|].
    rewrite Ho, (idle_all _ _ _ Hidle Ho), Hjobs.
    destruct (runTrial_total cfg Hwf Hpass simIndex) as [sim ->].
    by eexists.
Qed.

Lemma pool_never_deadlocks_witness :
  valid smallConfig /\ (1 <= 2)%nat /\
  exists s : Pool,
    exec (RS := FisherYates_rand) smallConfig (take 5 interleaved) (initPool 2) = Some s /\
    (finished smallConfig s = true \/
     exists a : action, is_Some (step (RS := FisherYates_rand) smallConfig a s)).
Proof.
  assert (Hvalid : valid smallConfig).
  { split; [unfold smallConfig; int_range|]. unfold invalid. cbn. lia. }
  assert (Hw : (1 <= 2)%nat) by lia.
  split; [exact Hvalid|]. split; [exact Hw|].
  destruct (exec (RS := FisherYates_rand) smallConfig (take 5 interleaved) (initPool 2))
    as [s|] eqn:Hexec; [|vm_compute in Hexec; discriminate].
  exists s. split; [reflexivity|].
  exact (pool_never_deadlocks (RS := FisherYates_rand) smallConfig 2
           (take 5 interleaved) s Hvalid Hw Hexec).
Defined.

(** Nothing happens after the run is complete: in a finished pool no
    action is enabled. *)
Theorem finished_is_final {Rand : Type} {RS : RandSource Rand}
    (cfg : Config) (s : Pool) (a : action) :
  finished cfg s = true -> step cfg a s = None.
Proof.
  unfold finished. intros Hfin.
  apply andb_true_iff in Hfin as [Hfin Hout].
  apply andb_true_iff in Hfin as [Hfin Hidle].
  apply andb_true_iff in Hfin as [Hstop Hjobs].
  apply bool_decide_eq_true in Hstop.
  destruct (jobs s) eqn:Ej; [|discriminate].
  destruct (output s) eqn:Eo; [|discriminate].
  destruct a as [|w|w|]; cbn [step]; rewrite ?Ej, ?Eo.
  - rewrite decide_False; [done|]. intros [H _]. contradiction.
  - destruct (workers s !! w) as [[?|]|]; reflexivity.
  - destruct (workers s !! w) as [o|] eqn:Hw; [|reflexivity].
    by rewrite (idle_all _ _ _ Hidle Hw).
  - reflexivity.
Qed.

Lemma finished_is_final_witness :
  finished smallConfig (mkPool 3 [] [None; None] [] smallAggregate) = true /\
  step (RS := FisherYates_rand) smallConfig Produce
       (mkPool 3 [] [None; None] [] smallAggregate) = None.
Proof.
  assert (Hfin : finished smallConfig (mkPool 3 [] [None; None] [] smallAggregate) = true)
    by (vm_compute; reflexivity).
  split; [exact Hfin|].
  exact (finished_is_final (RS := FisherYates_rand) smallConfig _ Produce Hfin).
Defined.

Lemma held_length_receive (ws : list (option Simulation)) (w : nat) (sim : Simulation) :
  ws !! w = Some None ->
  length (held (<[w := Some sim]> ws)) = S (length (held ws)).
Proof. intros Hw. by rewrite (held_receive ws w sim Hw). Qed.

Lemma held_length_send (ws : list (option Simulation)) (w : nat) (sim : Simulation) :
  ws !! w = Some (Some sim) ->
  S (length (held (<[w := None]> ws))) = length (held ws).
Proof. intros Hw. by rewrite <- (held_send ws w sim Hw). Qed.

Lemma held_nil_idle (ws : list (option Simulation)) :
  held ws = [] -> forallb idle ws = true.
Proof.
  unfold held. induction ws as [|[x|] ws IH]; cbn; [done|discriminate|exact IH].
Qed.

Section StepCount.

Context {Rand : Type} {RS : RandSource Rand}.
Variable cfg : Config.
Hypothesis cfg_wf : wf_Config cfg.

(** Every step takes one off the number of steps left. *)
Lemma step_stepsLeft (a : action) (s s' : Pool) :
  pool_inv cfg s -> step cfg a s = Some s' ->
  stepsLeft cfg s' = stepsLeft cfg s - 1.
Proof.
  intros (done & _ & Hnext & _) Hstep. unfold stepsLeft.
  destruct a as [|w|w|]; cbn [step] in Hstep.
  - case_decide as Hen; [|discriminate]. injection Hstep as <-.
    destruct Hen as [Hlt _]. cbn [nextJob jobs workers output].
    rewrite GoIntFacts.add_no_wrap by int_range.
    rewrite length_app. cbn [length]. lia.
  - destruct (workers s !! w) as [[sim0|]|] eqn:Hw; try discriminate.
    destruct (jobs s) as [|simIndex rest] eqn:Hjobs; [discriminate|].
    destruct (runTrial cfg simIndex) as [sim|]; [|discriminate].
    cbn [mbind option_bind] in Hstep. injection Hstep as <-.
    cbn [nextJob jobs workers output length].
    rewrite (held_length_receive _ _ sim Hw). lia.
  - destruct (workers s !! w) as [[sim|]|] eqn:Hw; try discriminate.
    case_decide; [|discriminate]. injection Hstep as <-.
    cbn [nextJob jobs workers output].
    rewrite <- (held_length_send _ _ sim Hw), length_app. cbn [length]. lia.
  - destruct (output s) as [|sim rest] eqn:Hout; [discriminate|].
    injection Hstep as <-. cbn [nextJob jobs workers output length]. lia.
Qed.

Lemma exec_stepsLeft (sched : list action) : forall s s',
  pool_inv cfg s -> exec cfg sched s = Some s' ->
  Z.of_nat (length sched) + stepsLeft cfg s' = stepsLeft cfg s.
Proof.
  induction sched as [|a rest IH]; intros s s' Hinv Hexec; cbn [exec] in Hexec.
  - injection Hexec as <-. cbn [length]. lia.
  - destruct (step cfg a s) as [s1|] eqn:Hstep; [|discriminate].
    cbn [mbind option_bind] in Hexec.
    pose proof (step_stepsLeft a s s1 Hinv Hstep).
    pose proof (IH s1 s' (step_inv cfg cfg_wf a s s1 Hstep Hinv) Hexec).
    cbn [length]. lia.
Qed.

Lemma finished_iff_no_steps_left (s : Pool) :
  pool_inv cfg s -> finished cfg s = true <-> stepsLeft cfg s = 0.
Proof.
  intros (done & _ & Hnext & _). unfold finished, stepsLeft. split.
  - intros Hfin.
    apply andb_true_iff in Hfin as [Hfin Hout].
    apply andb_true_iff in Hfin as [Hfin Hidle].
    apply andb_true_iff in Hfin as [Hstop Hjobs].
    apply bool_decide_eq_true in Hstop.
    destruct (jobs s); [|discriminate]. destruct (output s); [|discriminate].
    rewrite (held_idle _ Hidle). cbn [length]. lia.
  - intros Hzero.
    destruct (jobs s); [|cbn [length] in Hzero; lia].
    destruct (output s); [|cbn [length] in Hzero; lia].
    destruct (held (workers s)) eqn:Hheld; [|cbn [length] in Hzero; lia].
    rewrite (held_nil_idle _ Hheld). cbn [length] in Hzero.
    rewrite bool_decide_eq_true_2 by lia. reflexivity.
Qed.

End StepCount.

(** Every run terminates, and all complete runs are equally long: a
    schedule that the pool can follow has at most four actions for each
    trial, and it is a complete run exactly when it has four for
    each. *)
Theorem run_takes_four_steps_per_trial {Rand : Type} {RS : RandSource Rand}
    (cfg : Config) (w : nat) (sched : list action) (s : Pool) :
  wf_Config cfg ->
  exec cfg sched (initPool w) = Some s ->
  Z.of_nat (length sched) <= 4 * Z.max 0 (runs cfg) /\
  (finished cfg s = true <-> Z.of_nat (length sched) = 4 * Z.max 0 (runs cfg)).
Proof.
  intros Hwf Hexec.
  pose proof (initPool_inv cfg w) as Hinit.
  pose proof (exec_inv cfg Hwf sched _ _ Hexec Hinit) as Hinv.
  pose proof (exec_stepsLeft cfg Hwf sched _ _ Hinit Hexec) as Hcount.
  assert (Hstart : stepsLeft cfg (initPool w) = 4 * Z.max 0 (runs cfg)).
  { unfold stepsLeft, initPool. cbn [nextJob jobs workers output length].
    replace (held (replicate w None)) with (@nil Simulation); [cbn [length]; lia|].
    symmetry. apply held_idle. clear. induction w as [|w IH]; [done|exact IH]. }
  assert (Hleft : 0 <= stepsLeft cfg s).
  { destruct Hinv as (done & _ & Hnext & _). unfold stepsLeft. lia. }
  rewrite (finished_iff_no_steps_left cfg s Hinv). lia.
Qed.

Lemma run_takes_four_steps_per_trial_witness :
  wf_Config smallConfig /\
  exec (RS := FisherYates_rand) smallConfig interleaved (initPool 2)
    = Some (mkPool 3 [] [None; None] [] smallAggregate) /\
  Z.of_nat (length interleaved) <= 4 * Z.max 0 (runs smallConfig) /\
  (finished smallConfig (mkPool 3 [] [None; None] [] smallAggregate) = true <->
   Z.of_nat (length interleaved) = 4 * Z.max 0 (runs smallConfig)).
Proof.
  assert (Hwf : wf_Config smallConfig) by (unfold smallConfig; int_range).
  assert (Hexec : exec (RS := FisherYates_rand) smallConfig interleaved (initPool 2)
                  = Some (mkPool 3 [] [None; None] [] smallAggregate))
    by (vm_compute; reflexivity).
  split; [exact Hwf|]. split; [exact Hexec|].
  exact (run_takes_four_steps_per_trial (RS := FisherYates_rand)
           smallConfig 2 interleaved _ Hwf Hexec).
Defined.

(** ** The sums and counts of a run *)

Lemma to_int64_add_r (u v : Z) :
  GoInt.to_int64 (u + GoInt.to_int64 v) = GoInt.to_int64 (u + v).
Proof.
  apply GoIntFacts.to_int64_congr.
  rewrite <- Zplus_mod_idemp_r, GoIntFacts.to_int64_mod, Zplus_mod_idemp_r.
  reflexivity.
Qed.

(** The running sums, as residues: each is the sum over the integers of
    what was added, wrapped once. *)
Lemma foldl_aggregate_sums (l : list Simulation) : forall a : Aggregate,
  GoInt.in_int (drawSum a) -> GoInt.in_int (landSum a) ->
  GoInt.in_int (openingWinCount a) ->
  drawSum (foldl aggregate a l) = GoInt.to_int64 (drawSum a + totalDraws l) /\
  landSum (foldl aggregate a l) = GoInt.to_int64 (landSum a + totalLands l) /\
  openingWinCount (foldl aggregate a l)
    = GoInt.to_int64 (openingWinCount a + openingWins l).
Proof.
  induction l as [|x l IH]; intros a Hd Hl Hw; cbn [foldl].
  - unfold totalDraws, totalLands, openingWins. cbn. rewrite !Z.add_0_r.
    by rewrite !GoIntFacts.to_int64_id.
  - destruct (IH (aggregate a x)) as (Ed & El & Ew).
    + apply GoIntFacts.to_int64_in_int.
    + apply GoIntFacts.to_int64_in_int.
    + cbn [aggregate openingWinCount]. destruct (openingHandWin x); [|exact Hw].
      apply GoIntFacts.to_int64_in_int.
    + assert (Td : totalDraws (x :: l) = drawsToWinCon x + totalDraws l)
        by reflexivity.
      assert (Tl : totalLands (x :: l) = openingHandLands x + totalLands l)
        by reflexivity.
      assert (Tw : openingWins (x :: l)
                   = (if openingHandWin x then 1 else 0) + openingWins l).
      { unfold openingWins. rewrite filter_cons.
        destruct (openingHandWin x);
          [rewrite decide_True by done|rewrite decide_False by done];
          cbn [length]; lia. }
      rewrite Ed, El, Ew, Td, Tl, Tw.
      cbn [aggregate drawSum landSum openingWinCount]. split; [|split].
      * change (GoInt.to_int64 (GoInt.add (drawSum a) (drawsToWinCon x) + totalDraws l))
          with (GoInt.add (GoInt.to_int64 (drawSum a + drawsToWinCon x)) (totalDraws l)).
        rewrite GoIntFacts.add_to_int64_l. f_equal. lia.
      * unfold GoInt.add at 1. rewrite to_int64_add_r.
        change (GoInt.to_int64 (GoInt.to_int64 (landSum a + openingHandLands x)
                                + totalLands l))
          with (GoInt.add (GoInt.to_int64 (landSum a + openingHandLands x)) (totalLands l)).
        rewrite GoIntFacts.add_to_int64_l. f_equal. lia.
      * destruct (openingHandWin x).
        -- change (GoInt.to_int64 (GoInt.add (openingWinCount a) 1 + openingWins l))
             with (GoInt.add (GoInt.to_int64 (openingWinCount a + 1)) (openingWins l)).
           rewrite GoIntFacts.add_to_int64_l. f_equal. lia.
        -- by rewrite Z.add_0_l.
Qed.

Lemma total_bounds (f : Simulation -> Z) (B : Z) (l : list Simulation) :
  Forall (fun sim => 0 <= f sim <= B) l ->
  0 <= foldr (fun sim acc => f sim + acc) 0 l <= Z.of_nat (length l) * B.
Proof.
  induction 1 as [|x l Hx _ IH]; cbn [foldr length]; [lia|nia].
Qed.

Section RunTotals.

Context {Rand : Type} {RS : RandSource Rand}.
Variable cfg : Config.
Hypothesis cfg_valid : valid cfg.

(** What each trial of a valid configuration reports. *)
Lemma trial_bounds (simIndex : Z) (sim : Simulation) :
  runTrial cfg simIndex = Some sim ->
  0 <= drawsToWinCon sim <= deckSize cfg - 7 /\ 0 <= openingHandLands sim <= 7.
Proof.
  pose proof (valid_validateConfig cfg cfg_valid) as Hpass.
  destruct cfg_valid as [Hwf Hok].
  assert (Hfit : lands cfg + combos cfg <= deckSize cfg).
  { destruct (decide (lands cfg + combos cfg <= deckSize cfg)); [done|].
    destruct Hok. unfold invalid. lia. }
  unfold runTrial.
  destruct (createDeck_length cfg (NewRand (simSeed (seed cfg) simIndex)) Hwf Hpass)
    as (deck & -> & H7 & Hsize).
  specialize (Hsize Hfit). cbn [mbind option_bind]. intros Hrun.
  assert (Hlen : go_len deck) by (unfold go_len; int_range).
  pose proof (runSimulation_fields _ _ _ Hrun) as (_ & _ & Hlands & _).
  destruct (runSimulation_stop deck (required cfg) sim Hlen Hrun) as (d & -> & Hd & _).
  cbn [drawsToWinCon openingHandLands] in *. split; [lia|].
  assert (Hhand : length (take 7 deck) = 7%nat) by (rewrite length_take; lia).
  rewrite countLands_spec by (rewrite ?Hhand; unfold GoInt.max_int; lia).
  assert (Hle : (landCount (take 7 deck) <= 7)%nat).
  { unfold landCount. rewrite <- Hhand at 2. apply length_filter. }
  lia.
Qed.

Lemma trialResults_bounds :
  Forall (fun sim => 0 <= drawsToWinCon sim <= deckSize cfg - 7) (trialResults cfg) /\
  Forall (fun sim => 0 <= openingHandLands sim <= 7) (trialResults cfg) /\
  Z.of_nat (length (trialResults cfg)) = runs cfg.
Proof.
  pose proof (valid_validateConfig cfg cfg_valid) as Hpass.
  pose proof (proj1 (validateConfig_None cfg) Hpass) as Hv.
  destruct cfg_valid as [Hwf _].
  assert (Hall : Forall (fun sim => (0 <= drawsToWinCon sim <= deckSize cfg - 7) /\
                                    0 <= openingHandLands sim <= 7) (trialResults cfg)).
  { apply Forall_forall. intros sim Hin. unfold trialResults in Hin.
    apply list_elem_of_omap in Hin as (i & _ & Hi).
    by apply (trial_bounds i). }
  split; [|split].
  - eapply Forall_impl; [exact Hall|]. by intros sim [H _].
  - eapply Forall_impl; [exact Hall|]. by intros sim [_ H].
  - unfold trialResults. rewrite length_omap_total, length_seqZ; [lia|].
    intros i. by apply runTrial_total.
Qed.

End RunTotals.

Lemma forallb_idle_replicate (w : nat) : forallb idle (replicate w None) = true.
Proof. induction w as [|w IH]; [reflexivity|exact IH]. Qed.

Lemma openingWins_bounds (l : list Simulation) :
  0 <= openingWins l <= Z.of_nat (length l).
Proof.
  unfold openingWins.
  pose proof (length_filter (fun sim => openingHandWin sim = true) l). lia.
Qed.

(** The counts returned for a valid configuration: every trial is
    counted once, and the opening-hand wins are the trials whose
    opening hand won, none counted twice or dropped. *)
Theorem results_count_every_trial {Rand : Type} {RS : RandSource Rand}
    (cfg : Config) (w : nat) (sched : list action) (r : Results) :
  valid cfg ->
  runScenario cfg w sched = Some r ->
  attempts r = runs cfg /\
  openingHandWins r = openingWins (trialResults cfg) /\
  0 <= openingHandWins r <= attempts r.
Proof.
  intros Hvalid Hrun.
  pose proof (valid_validateConfig cfg Hvalid) as Hpass.
  pose proof (proj1 (validateConfig_None cfg) Hpass) as Hv.
  pose proof (trialResults_bounds cfg Hvalid) as (_ & _ & Hlength).
  destruct Hvalid as [Hwf _].
  unfold runScenario in Hrun.
  destruct (runPool cfg w sched) as [a|] eqn:Hpool; [|discriminate].
  cbn in Hrun. injection Hrun as <-.
  apply (runPool_complete cfg Hwf) in Hpool as ->.
  pose proof (scenarioResults_attempts cfg Hwf Hpass) as Hattempts.
  unfold scenarioResults in Hattempts. split; [exact Hattempts|].
  rewrite Hattempts. rewrite finish_attempts in Hattempts.
  destruct (foldl_aggregate_sums (trialResults cfg) emptyAggregate) as (_ & _ & Hwins);
    [cbn; int_range..|].
  pose proof (openingWins_bounds (trialResults cfg)) as Hb.
  cbn [emptyAggregate openingWinCount] in Hwins. rewrite Z.add_0_l in Hwins.
  rewrite GoIntFacts.to_int64_id in Hwins by int_range.
  unfold finish. rewrite Hattempts.
  replace (runs cfg >? 0) with true by (symmetry; apply Z.gtb_lt; lia).
  cbn [openingHandWins]. rewrite Hwins. lia.
Qed.

Lemma results_count_every_trial_witness :
  valid smallConfig /\
  runScenario (RS := FisherYates_rand) smallConfig 2 interleaved
    = Some (finish smallAggregate) /\
  attempts (finish smallAggregate) = runs smallConfig /\
  openingHandWins (finish smallAggregate)
    = openingWins (trialResults (RS := FisherYates_rand) smallConfig) /\
  0 <= openingHandWins (finish smallAggregate) <= attempts (finish smallAggregate).
Proof.
  assert (Hvalid : valid smallConfig).
  { split; [unfold smallConfig; int_range|]. unfold invalid. cbn. lia. }
  assert (Hrun : runScenario (RS := FisherYates_rand) smallConfig 2 interleaved
                 = Some (finish smallAggregate)) by (vm_compute; reflexivity).
  split; [exact Hvalid|]. split; [exact Hrun|].
  exact (results_count_every_trial (RS := FisherYates_rand)
           smallConfig 2 interleaved _ Hvalid Hrun).
Defined.

(** The running sums do not overflow as long as [runs] times the library
    size and seven times [runs] fit an [int64]: at the end of a run of a
    valid configuration they are the sums, over the integers, of the
    draws and of the opening lands of all trials. *)
Theorem sums_exact_without_overflow {Rand : Type} {RS : RandSource Rand}
    (cfg : Config) (w : nat) (sched : list action) (a : Aggregate) :
  valid cfg ->
  runs cfg * (deckSize cfg - 7) <= GoInt.max_int ->
  7 * runs cfg <= GoInt.max_int ->
  runPool cfg w sched = Some a ->
  drawSum a = totalDraws (trialResults cfg) /\
  0 <= drawSum a <= runs cfg * (deckSize cfg - 7) /\
  landSum a = totalLands (trialResults cfg) /\
  0 <= landSum a <= 7 * runs cfg.
Proof.
  intros Hvalid Hdraws Hlands Hpool.
  pose proof (trialResults_bounds cfg Hvalid) as (Hd & Hl & Hlength).
  destruct Hvalid as [Hwf _].
  apply (runPool_complete cfg Hwf) in Hpool as ->.
  destruct (foldl_aggregate_sums (trialResults cfg) emptyAggregate) as (Ed & El & _);
    [cbn; int_range..|].
  cbn [emptyAggregate drawSum landSum] in Ed, El. rewrite Z.add_0_l in Ed, El.
  pose proof (total_bounds drawsToWinCon _ _ Hd) as Bd.
  pose proof (total_bounds openingHandLands _ _ Hl) as Bl.
  fold (totalDraws (trialResults cfg)) in Bd.
  fold (totalLands (trialResults cfg)) in Bl.
  rewrite Hlength in Bd, Bl.
  rewrite GoIntFacts.to_int64_id in Ed by int_range.
  rewrite GoIntFacts.to_int64_id in El by int_range.
  rewrite Ed, El. lia.
Qed.

Lemma sums_exact_without_overflow_witness :
  valid smallConfig /\
  runs smallConfig * (deckSize smallConfig - 7) <= GoInt.max_int /\
  7 * runs smallConfig <= GoInt.max_int /\
  runPool (RS := FisherYates_rand) smallConfig 2 interleaved = Some smallAggregate /\
  drawSum smallAggregate = totalDraws (trialResults (RS := FisherYates_rand) smallConfig) /\
  0 <= drawSum smallAggregate <= runs smallConfig * (deckSize smallConfig - 7) /\
  landSum smallAggregate = totalLands (trialResults (RS := FisherYates_rand) smallConfig) /\
  0 <= landSum smallAggregate <= 7 * runs smallConfig.
Proof.
  assert (Hvalid : valid smallConfig).
  { split; [unfold smallConfig; int_range|]. unfold invalid. cbn. lia. }
  assert (Hd : runs smallConfig * (deckSize smallConfig - 7) <= GoInt.max_int)
    by (vm_compute; discriminate).
  assert (Hl : 7 * runs smallConfig <= GoInt.max_int) by (vm_compute; discriminate).
  assert (Hpool : runPool (RS := FisherYates_rand) smallConfig 2 interleaved
                  = Some smallAggregate) by (vm_compute; reflexivity).
  split; [exact Hvalid|]. split; [exact Hd|]. split; [exact Hl|].
  split; [exact Hpool|].
  exact (sums_exact_without_overflow (RS := FisherYates_rand)
           smallConfig 2 interleaved _ Hvalid Hd Hl Hpool).
Defined.

(** With no runs to make ([runs] zero or negative, which
    [validateConfig] turns down but [runScenario] accepts) the run is
    complete at once and returns the zero [Results]: no mean is
    computed, and nothing is divided by zero. *)
Theorem no_runs_zero_results {Rand : Type} {RS : RandSource Rand}
    (cfg : Config) (w : nat) :
  wf_Config cfg -> runs cfg <= 0 ->
  runScenario cfg w [] = Some zeroResults /\
  (forall (sched : list action) (r : Results),
     runScenario cfg w sched = Some r -> r = zeroResults).
Proof.
  intros Hwf Hruns. split.
  - unfold runScenario, runPool. cbn [exec mbind option_bind].
    unfold finished, initPool. cbn [nextJob jobs workers output].
    rewrite bool_decide_eq_true_2 by lia.
    rewrite forallb_idle_replicate. reflexivity.
  - intros sched r Hrun. unfold runScenario in Hrun.
    destruct (runPool cfg w sched) as [a|] eqn:Hpool; [|discriminate].
    cbn in Hrun. injection Hrun as <-.
    apply (runPool_complete cfg Hwf) in Hpool as ->.
    unfold trialResults. rewrite seqZ_nil by lia. reflexivity.
Qed.

Lemma no_runs_zero_results_witness :
  wf_Config (mkConfig 60 24 4 2 0 1) /\ runs (mkConfig 60 24 4 2 0 1) <= 0 /\
  runScenario (RS := FisherYates_rand) (mkConfig 60 24 4 2 0 1) 4 [] = Some zeroResults.
Proof.
  assert (Hwf : wf_Config (mkConfig 60 24 4 2 0 1)) by int_range.
  assert (Hruns : runs (mkConfig 60 24 4 2 0 1) <= 0) by (cbn; lia).
  split; [exact Hwf|]. split; [exact Hruns|].
  exact (proj1 (no_runs_zero_results (RS := FisherYates_rand)
                  (mkConfig 60 24 4 2 0 1) 4 Hwf Hruns)).
Defined.

(** ** The earlier revision against the current one *)

Lemma legacy_guards_None (cfg : Legacy.Config) :
  Legacy.guards cfg = None <->
  Legacy.required cfg <= Legacy.combos cfg /\
  GoInt.add (Legacy.lands cfg) (Legacy.combos cfg) <= 99 /\
  1 <= Legacy.runs cfg.
Proof.
  unfold Legacy.guards.
  destruct (Z.gtb_spec (Legacy.required cfg) (Legacy.combos cfg));
    [split; [discriminate|lia]|].
  destruct (Z.gtb_spec (GoInt.add (Legacy.lands cfg) (Legacy.combos cfg)) 99);
    [split; [discriminate|lia]|].
  destruct (Z.ltb_spec (Legacy.runs cfg) 1); [split; [discriminate|lia]|].
  split; [lia|done].
Qed.


(** The earlier revision let a negative land count through, and then
    dealt a deck of more than 99 cards: no land, and [99 - lands]
    non-lands. *)
Theorem legacy_negative_lands_oversized_deck {Rand : Type} {RS : RandSource Rand}
    (cfg : Legacy.Config) (rng : Rand) :
  Legacy.guards cfg = None ->
  GoInt.min_int + 99 < Legacy.lands cfg < 0 ->
  0 <= Legacy.combos cfg <= GoInt.max_int ->
  exists deck,
    Legacy.createDeck cfg rng = Some deck /\
    Z.of_nat (length deck) = 99 - Legacy.lands cfg /\
    99 < Z.of_nat (length deck) /\
    count isLand deck = 0%nat.
Proof.
  intros Hguards Hlands Hcombos. apply legacy_guards_None in Hguards as (_ & Hsum & _).
  unfold GoInt.min_int, GoInt.max_int in *.
  rewrite GoIntFacts.add_no_wrap in Hsum
    by (unfold GoInt.in_int, GoInt.min_int, GoInt.max_int; lia).
  change (Legacy.createDeck cfg rng) with (createDeck (upgrade cfg) rng).
  destruct (createDeck_stacked (upgrade cfg) rng) as (deck & Hrun & Hperm).
  exists deck. split; [exact Hrun|].
  assert (Hplain : GoInt.sub (GoInt.sub (deckSize (upgrade cfg)) (lands (upgrade cfg)))
                             (combos (upgrade cfg))
                   = 99 - Legacy.lands cfg - Legacy.combos cfg).
  { cbn [upgrade deckSize lands combos].
    rewrite (GoIntFacts.sub_no_wrap 99)
      by (unfold GoInt.in_int, GoInt.min_int, GoInt.max_int; lia).
    apply GoIntFacts.sub_no_wrap.
    unfold GoInt.in_int, GoInt.min_int, GoInt.max_int. lia. }
  unfold count. rewrite !Hperm. fold (count isLand (stackedDeck (upgrade cfg))).
  rewrite length_stackedDeck, count_stackedDeck, Hplain.
  cbn [upgrade deckSize lands combos].
  split; [lia|]. split; [lia|]. decide_cards.
Qed.

Lemma legacy_negative_lands_oversized_deck_witness :
  Legacy.guards (Legacy.mkConfig (-5) 4 2 1 1) = None /\
  GoInt.min_int + 99 < -5 < 0 /\ 0 <= 4 <= GoInt.max_int /\
  exists deck,
    Legacy.createDeck (RS := FisherYates_rand) (Legacy.mkConfig (-5) 4 2 1 1) 1
      = Some deck /\
    Z.of_nat (length deck) = 99 - -5 /\
    99 < Z.of_nat (length deck) /\
    count isLand deck = 0%nat.
Proof.
  assert (Hg : Legacy.guards (Legacy.mkConfig (-5) 4 2 1 1) = None)
    by (vm_compute; reflexivity).
  assert (Hl : GoInt.min_int + 99 < -5 < 0) by (unfold GoInt.min_int; lia).
  assert (Hc : 0 <= 4 <= GoInt.max_int) by (unfold GoInt.max_int; lia).
  split; [exact Hg|]. split; [exact Hl|]. split; [exact Hc|].
  exact (legacy_negative_lands_oversized_deck (RS := FisherYates_rand)
           (Legacy.mkConfig (-5) 4 2 1 1) 1 Hg Hl Hc).
Defined.
